(** * chartdb: the canonical SQL export ([export-sql-script.ts])

    A shallow embedding of [exportBaseSQL], [getMySQLDataTypeSize] and
    [alignForeignKeyDataTypes], and the properties of the export that the
    specification states.

    Conventions of the embedding.
    - A JavaScript string is a [string], a sequence of 8-bit characters:
      ASCII text as it is, other text by its UTF-8 bytes.  Every literal of
      the source is ASCII.  Text is appended with [+:+], like
      [sqlScript += ...].
    - The objects of a Diagram form a tree (a field belongs to one table, a
      table to one diagram), so the heap is the list of tables itself.  A
      reference to a table is its position in [diagram.tables]; a reference
      to a field is a table reference and a position in [table.fields].
      [tableMap], [nonViewTables] and the results of [find] hold such
      references, and an assignment [field.type = ...] writes through them.
    - A function that mutates the Diagram returns the Diagram after the
      call. *)

From Stdlib Require Import NArith Ascii.
From stdpp Require Import gmap strings list fin_maps pretty.

(** ** Data model *)

(** Modelled from the spec: the declarations of [Diagram] and of its tables,
    fields, indexes and relationships live in [lib/domain], which the export
    only imports.  Section 3 of the specification gives the attributes:
    identifiers, names and types are strings, [characterMaximumLength],
    [precision] and [scale] are optional positive integers, [default] is an
    optional string.  [None] is JavaScript's [undefined]. *)
Module Field.
Record t : Type := mk {
  id : string;
  name : string;
  type : string;
  characterMaximumLength : option N;
  precision : option N;
  scale : option N;
  nullable : bool;
  default : option string;
  primaryKey : bool
}.
End Field.

Module Index.
Record t : Type := mk {
  name : string;
  unique : bool;
  fieldIds : list string
}.
End Index.

Module Table.
Record t : Type := mk {
  id : string;
  name : string;
  isView : bool;
  fields : list Field.t;
  indexes : list Index.t
}.
End Table.

Module Relationship.
Record t : Type := mk {
  name : string;
  sourceTableId : string;
  sourceFieldId : string;
  targetTableId : string;
  targetFieldId : string
}.
End Relationship.

Module Diagram.
Record t : Type := mk {
  tables : option (list Table.t);
  relationships : option (list Relationship.t)
}.
End Diagram.

(** ** The JavaScript operations the export relies on *)

Module JS.

(** [String.prototype.toLowerCase] on the ASCII letters; a character
    outside ASCII is kept.  The lower-case form is only used as a key of a
    lookup: the two characters outside ASCII whose lower-case form has an
    ASCII letter give [k] (the Kelvin sign) and [i] followed by a combining
    dot, and neither can complete a key that the lookup below finds. *)
Definition lowerAscii (c : Ascii.ascii) : Ascii.ascii :=
  let n := Ascii.N_of_ascii c in
  if ((65 <=? n) && (n <=? 90))%N then Ascii.ascii_of_N (n + 32) else c.

Fixpoint toLowerCase (s : string) : string :=
  match s with
  | EmptyString => EmptyString
  | String c s' => String (lowerAscii c) (toLowerCase s')
  end.

(** Truthiness of an optional number: [undefined] and [0] are falsy. *)
Definition truthyNumber (n : option N) : bool :=
  match n with
  | Some k => negb (k =? 0)%N
  | None => false
  end.

(** Truthiness of an optional string: [undefined] and [''] are falsy. *)
Definition truthyString (s : option string) : bool :=
  match s with
  | Some EmptyString => false
  | Some _ => true
  | None => false
  end.

(** [`${n}`] for an optional number.  The numbers of a field are integers;
    an integer up to 2^53, which a JavaScript number holds exactly, prints
    in plain decimal, as here.  Beyond 2^53 a number prints the shortest
    digits that read back as the same number (and an exponent from 10^21
    on), which this function does not follow: the embedding is exact for
    lengths, precisions and scales up to 2^53. *)
Definition showNumber (n : option N) : string :=
  match n with
  | Some k => pretty k
  | None => "undefined"
  end.

(** [`${s}`] for an optional string. *)
Definition showString (s : option string) : string :=
  match s with
  | Some v => v
  | None => "undefined"
  end.

(** [Array.prototype.join]. *)
Fixpoint join (sep : string) (l : list string) : string :=
  match l with
  | [] => ""
  | [x] => x
  | x :: l' => x +:+ sep +:+ join sep l'
  end.

(** The values a property read on an object literal of numbers can give:
    one of its numbers, or a member inherited from [Object.prototype]. *)
Inductive value : Type :=
| Number (n : N)
| BuiltinFunction (fname : string)
| ObjectPrototype.

(** The string-keyed members of [Object.prototype]: every object literal
    inherits them, and [obj[key]] finds them when [obj] has no own
    property [key]. *)
Definition objectPrototype (key : string) : option value :=
  if decide (key = "constructor") then Some (BuiltinFunction "Object")
  else if decide (key = "__proto__") then Some ObjectPrototype
  else if decide (key ∈ ["hasOwnProperty"; "isPrototypeOf";
                         "propertyIsEnumerable"; "toLocaleString";
                         "toString"; "valueOf"; "__defineGetter__";
                         "__defineSetter__"; "__lookupGetter__";
                         "__lookupSetter__"])
  then Some (BuiltinFunction key)
  else None.

(** [obj[key]] for an object literal with the own properties [own]. *)
Definition getProperty (own : gmap string N) (key : string) : option value :=
  match own !! key with
  | Some n => Some (Number n)
  | None => objectPrototype key
  end.

(** [v || 0]: [undefined] and the number [0] are falsy, objects and
    functions are truthy. *)
Definition orZero (v : option value) : value :=
  match v with
  | Some (Number n) => if (n =? 0)%N then Number 0 else Number n
  | Some o => o
  | None => Number 0
  end.

(** The primitive an object converts to in a comparison: its [toString]. *)
Definition toPrimitive (v : value) : string :=
  match v with
  | Number n => pretty n
  | BuiltinFunction f => "function " +:+ f +:+ "() { [native code] }"
  | ObjectPrototype => "[object Object]"
  end.

(** [a > b].  Two numbers compare as numbers.  An object against a number
    converts to a string that is no numeral, hence to [NaN], and every
    comparison with [NaN] is false.  Two objects compare their strings,
    code unit by code unit. *)
Definition gt (a b : value) : bool :=
  match a, b with
  | Number x, Number y => (y <? x)%N
  | Number _, _ | _, Number _ => false
  | _, _ => String.ltb (toPrimitive b) (toPrimitive a)
  end.

End JS.

(** ** [getMySQLDataTypeSize] *)

Definition dataTypeSizes : gmap string N :=
  list_to_map
    [ ("tinyint", 1%N); ("smallint", 2%N); ("mediumint", 3%N);
      ("integer", 4%N); ("bigint", 8%N); ("float", 4%N); ("double", 8%N);
      ("decimal", 16%N); ("numeric", 16%N) ].

Definition getMySQLDataTypeSize (type : string) : JS.value :=
  JS.orZero (JS.getProperty dataTypeSizes (JS.toLowerCase type)).

(** ** [alignForeignKeyDataTypes] *)

(** [tables.forEach((table) => tableMap.set(table.id, table))], from the
    table at position [i] on: a later table replaces an earlier one that has
    the same id. *)
Fixpoint setTables (i : nat) (tables : list Table.t) (tableMap : gmap string nat)
  : gmap string nat :=
  match tables with
  | [] => tableMap
  | table :: rest => setTables (S i) rest (<[Table.id table := i]> tableMap)
  end.

(** [fields.find((field) => field.id === fieldId)]: the first match, with
    its position. *)
Definition findField (fieldId : string) (fields : list Field.t)
  : option (nat * Field.t) :=
  list_find (λ field, Field.id field = fieldId) fields.

Definition setType (type : string) (field : Field.t) : Field.t :=
  Field.mk (Field.id field) (Field.name field) type
           (Field.characterMaximumLength field) (Field.precision field)
           (Field.scale field) (Field.nullable field) (Field.default field)
           (Field.primaryKey field).

Definition setFields (fields : list Field.t) (table : Table.t) : Table.t :=
  Table.mk (Table.id table) (Table.name table) (Table.isView table) fields
           (Table.indexes table).

(** [field.type = type] for the field at position [fi] of the table at
    position [ti]. *)
Definition assignType (ti fi : nat) (type : string) (tables : list Table.t)
  : list Table.t :=
  alter (λ table, setFields (alter (setType type) fi (Table.fields table)) table)
        ti tables.

(** The body of [relationships.forEach] in [alignForeignKeyDataTypes]. *)
Definition alignRelationship (tableMap : gmap string nat)
    (tables : list Table.t) (relationship : Relationship.t) : list Table.t :=
  match tableMap !! Relationship.sourceTableId relationship,
        tableMap !! Relationship.targetTableId relationship with
  | Some si, Some ti =>
      match tables !! si, tables !! ti with
      | Some sourceTable, Some targetTable =>
          match findField (Relationship.sourceFieldId relationship)
                          (Table.fields sourceTable),
                findField (Relationship.targetFieldId relationship)
                          (Table.fields targetTable) with
          | Some (sfi, sourceField), Some (tfi, targetField) =>
              let sourceSize := getMySQLDataTypeSize (Field.type sourceField) in
              let targetSize := getMySQLDataTypeSize (Field.type targetField) in
              if JS.gt sourceSize targetSize then
                assignType ti tfi (Field.type sourceField) tables
              else if JS.gt targetSize sourceSize then
                assignType si sfi (Field.type targetField) tables
              else tables
          | _, _ => tables
          end
      | _, _ => tables
      end
  | _, _ => tables
  end.

Definition alignForeignKeyDataTypes (diagram : Diagram.t) : Diagram.t :=
  match Diagram.tables diagram, Diagram.relationships diagram with
  | Some tables, Some relationships =>
      if (length tables =? 0) || (length relationships =? 0) then diagram
      else
        let tableMap := setTables 0 tables ∅ in
        Diagram.mk
          (Some (foldl (alignRelationship tableMap) tables relationships))
          (Some relationships)
  | _, _ => diagram
  end.

(** ** [exportBaseSQL] *)

(** The line feed of the source's ['\n']. *)
Definition LF : string := String (Ascii.ascii_of_nat 10) EmptyString.

(** [list.forEach((x, index) => ...)], threading the variable the body
    assigns to. *)
Fixpoint forEachFrom {A St : Type} (body : St → A → nat → St)
    (index : nat) (l : list A) (s : St) : St :=
  match l with
  | [] => s
  | x :: rest => forEachFrom body (S index) rest (body s x index)
  end.

Definition forEach {A St : Type} (body : St → A → nat → St)
    (l : list A) (s : St) : St :=
  forEachFrom body 0 l s.

(** [array.filter(Boolean)] on an array of names and [undefined]s. *)
Definition filterBoolean (l : list (option string)) : list string :=
  omap (λ o, if JS.truthyString o then o else None) l.

(** [tables.filter((table) => !table.isView)]: the references to the
    non-view tables, the table at the head of [tables] having position [i]. *)
Fixpoint filterNonView (i : nat) (tables : list Table.t) : list nat :=
  match tables with
  | [] => []
  | table :: rest =>
      if negb (Table.isView table) then i :: filterNonView (S i) rest
      else filterNonView (S i) rest
  end.

(** The table objects behind a list of references, as the heap has them. *)
Definition deref (heap : list Table.t) (refs : list nat) : list Table.t :=
  omap (λ i, heap !! i) refs.

(** The body of [table.fields.forEach]; [fieldCount] is
    [table.fields.length]. *)
Definition exportField (fieldCount : nat) (sqlScript : string)
    (field : Field.t) (index : nat) : string :=
  let sqlScript :=
    sqlScript +:+ "  " +:+ Field.name field +:+ " " +:+ Field.type field in
  let sqlScript :=
    if JS.truthyNumber (Field.characterMaximumLength field) then
      sqlScript +:+ "(" +:+ JS.showNumber (Field.characterMaximumLength field)
                +:+ ")"
    else sqlScript in
  let sqlScript :=
    if JS.truthyNumber (Field.precision field)
       && JS.truthyNumber (Field.scale field) then
      sqlScript +:+ "(" +:+ JS.showNumber (Field.precision field) +:+ ", "
                +:+ JS.showNumber (Field.scale field) +:+ ")"
    else if JS.truthyNumber (Field.precision field) then
      sqlScript +:+ "(" +:+ JS.showNumber (Field.precision field) +:+ ")"
    else sqlScript in
  let sqlScript :=
    if negb (Field.nullable field) then sqlScript +:+ " NOT NULL"
    else sqlScript in
  let sqlScript :=
    if JS.truthyString (Field.default field) then
      sqlScript +:+ " DEFAULT " +:+ JS.showString (Field.default field)
    else sqlScript in
  let sqlScript :=
    if Field.primaryKey field then sqlScript +:+ " PRIMARY KEY"
    else sqlScript in
  if (Z.of_nat index <? Z.of_nat fieldCount - 1)%Z then
    sqlScript +:+ "," +:+ LF
  else sqlScript.

(** The body of [table.indexes.forEach]. *)
Definition exportIndex (table : Table.t) (sqlScript : string)
    (index : Index.t) : string :=
  let fieldNames :=
    JS.join ", "
      (filterBoolean
         ((λ fieldId,
             Field.name <$> (snd <$> findField fieldId (Table.fields table)))
            <$> Index.fieldIds index)) in
  if JS.truthyString (Some fieldNames) then
    sqlScript +:+ "CREATE " +:+ (if Index.unique index then "UNIQUE " else "")
              +:+ "INDEX " +:+ Index.name index +:+ " ON " +:+ Table.name table
              +:+ " (" +:+ fieldNames +:+ ");" +:+ LF
  else sqlScript.

(** The body of [nonViewTables.forEach]. *)
Definition exportTable (sqlScript : string) (table : Table.t) : string :=
  let sqlScript :=
    sqlScript +:+ "CREATE TABLE " +:+ Table.name table +:+ " (" +:+ LF in
  let sqlScript :=
    forEach (exportField (length (Table.fields table))) (Table.fields table)
            sqlScript in
  let sqlScript := sqlScript +:+ LF +:+ ");" +:+ LF +:+ LF in
  let sqlScript := foldl (exportIndex table) sqlScript (Table.indexes table) in
  sqlScript +:+ LF.

(** [nonViewTables.find((table) => table.id === tableId)]. *)
Definition findTable (tableId : string) (nonViewTables : list Table.t)
  : option Table.t :=
  snd <$> list_find (λ table, Table.id table = tableId) nonViewTables.

(** The body of [relationships?.forEach] in [exportBaseSQL]. *)
Definition exportRelationship (nonViewTables : list Table.t)
    (sqlScript : string) (relationship : Relationship.t) : string :=
  let sourceTable :=
    findTable (Relationship.sourceTableId relationship) nonViewTables in
  let targetTable :=
    findTable (Relationship.targetTableId relationship) nonViewTables in
  let sourceTableField :=
    sourceTable ≫= λ table,
      snd <$> findField (Relationship.sourceFieldId relationship)
                        (Table.fields table) in
  let targetTableField :=
    targetTable ≫= λ table,
      snd <$> findField (Relationship.targetFieldId relationship)
                        (Table.fields table) in
  match sourceTable, targetTable, sourceTableField, targetTableField with
  | Some sourceTable, Some targetTable,
    Some sourceTableField, Some targetTableField =>
      sqlScript +:+ "ALTER TABLE " +:+ Table.name sourceTable
                +:+ " ADD CONSTRAINT " +:+ Relationship.name relationship
                +:+ " FOREIGN KEY (" +:+ Field.name sourceTableField
                +:+ ") REFERENCES " +:+ Table.name targetTable
                +:+ " (" +:+ Field.name targetTableField +:+ ");" +:+ LF
  | _, _, _, _ => sqlScript
  end.

(** [exportBaseSQL] returns the Diagram as the call leaves it and the script.
    [nonViewTables] is taken before [alignForeignKeyDataTypes] runs and read
    after it: it holds references, so the loops see the types the alignment
    has written. *)
Definition exportBaseSQL (diagram : Diagram.t) : Diagram.t * string :=
  match Diagram.tables diagram with
  | None => (diagram, "")
  | Some tables =>
      if length tables =? 0 then (diagram, "")
      else
        let nonViewTables := filterNonView 0 tables in
        let diagram' := alignForeignKeyDataTypes diagram in
        let heap :=
          match Diagram.tables diagram' with
          | Some tables' => tables'
          | None => []
          end in
        let nonViewTables := deref heap nonViewTables in
        let sqlScript := "" in
        let sqlScript := foldl exportTable sqlScript nonViewTables in
        let sqlScript :=
          match Diagram.relationships diagram with
          | Some relationships =>
              foldl (exportRelationship nonViewTables) sqlScript relationships
          | None => sqlScript
          end in
        (diagram', sqlScript)
  end.


(** ** [generateSQLPrompt] *)

(** The template literals of [generateSQLPrompt], character by character:
    a line break of the source is a line feed of the text, [\`] is a
    backquote, and the typographic apostrophe of two of the texts is its
    three UTF-8 bytes. *)
Definition basePrompt (databaseType : string) : string :=
  "
        You are generating SQL scripts for creating database tables and sequences, handling primary keys, indices, and other table attributes.
        The following instructions will guide you in optimizing the scripts for the "
  +:+ databaseType
  +:+ " dialect:
        - **Column Names**: Do **not** modify the names of columns. Ensure that all column names in the generated SQL script are exactly as provided in the input schema. If the input specifies a column name, it must appear in the output script unchanged.
        - **Column Name Conflicts**: When a column name conflicts with a data type or reserved keyword (e.g., fulltext), escape the column name by enclosing it.
    ".

Definition postgresqlInstructions : string :=
  "
        - **Sequence Creation**: Use `CREATE SEQUENCE IF NOT EXISTS` for sequence creation.
        - **Table and Index Creation**: Use `CREATE TABLE IF NOT EXISTS` and `CREATE INDEX IF NOT EXISTS` to avoid errors if the object already exists.
        - **Serial and Identity Columns**: For auto-increment columns, use `SERIAL` or `GENERATED BY DEFAULT AS IDENTITY`.
        - **Conditional Statements**: Utilize PostgreSQL’s support for `IF NOT EXISTS` in relevant `CREATE` statements.
    ".

Definition mysqlInstructions : string :=
  "
        - **Table Creation**: Use `CREATE TABLE IF NOT EXISTS` for creating tables. While creating the table structure, ensure that all foreign key columns use the correct data types as determined in the foreign key review.
        - **Auto-Increment**: Use `AUTO_INCREMENT` for auto-incrementing primary key columns.
        - **Index Creation**: Place all `CREATE INDEX` statements separately after the `CREATE TABLE` statement. Avoid using `IF NOT EXISTS` in `CREATE INDEX` statements.
        - **Indexing TEXT/BLOB Columns**: Do **not** create regular indexes on `TEXT` or `BLOB` columns. If indexing these types is required, use `FULLTEXT` indexes specifically for `TEXT` columns where appropriate, or consider alternative strategies.
        - **Date Column Defaults**: Avoid using `CURRENT_DATE` as a default for `DATE` columns. Instead, consider using `DEFAULT NULL` or handle default values programmatically.
        - **Timestamp Default Value**: Use `DEFAULT CURRENT_TIMESTAMP` for `TIMESTAMP` columns. Only one `TIMESTAMP` column can have `CURRENT_TIMESTAMP` as the default without specifying `ON UPDATE`.
        - **Boolean Columns**: Use `TINYINT(1)` instead of `BOOLEAN` for better compatibility with MySQL/MariaDB versions that might not fully support the `BOOLEAN` data type.
        - **TEXT and BLOB Constraints**: Do not use `NOT NULL` with `TEXT` or `BLOB` columns, as these types do not support the `NOT NULL` constraint in MariaDB.
        - **ENUM Data Type**: Ensure that default values are compatible and that the `ENUM` declaration adheres to MariaDB's syntax requirements.
        - **Default Values**: Ensure that default values for columns, especially `DECIMAL` and `ENUM`, are correctly formatted and comply with MariaDB's SQL syntax.
        - **Sequences**: Recognize that MySQL does not natively support sequences. Use `AUTO_INCREMENT` instead.

        **Reminder**: Ensure all column names that conflict with reserved keywords or data types (like `fulltext`) are escaped using backticks (`).
    ".

Definition sqlServerInstructions : string :=
  "
        - **Sequence Creation**: Use `CREATE SEQUENCE` without `IF NOT EXISTS`, and employ conditional logic (`IF NOT EXISTS`) to check for sequence existence before creation.
        - **Identity Columns**: Always prefer using the `IDENTITY` keyword (e.g., `INT IDENTITY(1,1)`) for auto-incrementing primary key columns when possible.
        - **Conditional Logic**: Use a conditional block like `IF NOT EXISTS (SELECT * FROM sys.objects WHERE ...)` since SQL Server doesn’t support `IF NOT EXISTS` directly in `CREATE` statements.
        - **Avoid Unsupported Syntax**: Ensure the script does not include unsupported statements like `CREATE TABLE IF NOT EXISTS`.
    ".

Definition mariadbInstructions : string :=
  "
        - **Table Creation**: Use `CREATE TABLE IF NOT EXISTS` for creating tables. While creating the table structure, ensure that all foreign key columns use the correct data types as determined in the foreign key review.
        - **Auto-Increment**: Use `AUTO_INCREMENT` for auto-incrementing primary key columns.
        - **Index Creation**: Place all `CREATE INDEX` statements separately after the `CREATE TABLE` statement. Avoid using `IF NOT EXISTS` in `CREATE INDEX` statements.
        - **Indexing TEXT/BLOB Columns**: Do **not** create regular indexes on `TEXT` or `BLOB` columns. If indexing these types is required, use `FULLTEXT` indexes specifically for `TEXT` columns where appropriate, or consider alternative strategies.
        - **Date Column Defaults**: Avoid using `CURRENT_DATE` as a default for `DATE` columns. Instead, consider using `DEFAULT NULL` or handle default values programmatically.
        - **Timestamp Default Value**: Use `DEFAULT CURRENT_TIMESTAMP` for `TIMESTAMP` columns. Only one `TIMESTAMP` column can have `CURRENT_TIMESTAMP` as the default without specifying `ON UPDATE`.
        - **Boolean Columns**: Use `TINYINT(1)` instead of `BOOLEAN` for better compatibility with MySQL/MariaDB versions that might not fully support the `BOOLEAN` data type.
        - **TEXT and BLOB Constraints**: Do not use `NOT NULL` with `TEXT` or `BLOB` columns, as these types do not support the `NOT NULL` constraint in MariaDB.
        - **ENUM Data Type**: Ensure that default values are compatible and that the `ENUM` declaration adheres to MariaDB's syntax requirements.
        - **Default Values**: Ensure that default values for columns, especially `DECIMAL` and `ENUM`, are correctly formatted and comply with MariaDB's SQL syntax.
        - **Sequences**: Recognize that MySQL does not natively support sequences. Use `AUTO_INCREMENT` instead.

        **Reminder**: Ensure all column names that conflict with reserved keywords or data types (like `fulltext`) are escaped using backticks (`).
        ".

Definition sqliteInstructions : string :=
  "
        - **Table Creation**: Use `CREATE TABLE IF NOT EXISTS`.
        - **Auto-Increment**: Use `AUTOINCREMENT` with `INTEGER PRIMARY KEY` for auto-increment functionality.
        - **No Sequence Support**: SQLite does not support sequences; rely solely on `AUTOINCREMENT` for similar functionality.
        - **Foreign Key Constraints**: Do not use `ALTER TABLE` to add foreign key constraints. SQLite does not support adding foreign keys to an existing table after it has been created. Always define foreign key constraints during the `CREATE TABLE` statement. Avoid using named constraints in foreign key definitions.
        - **Adding Foreign Keys to Existing Tables**: If adding a foreign key to an existing table is required, suggest creating a new table with the foreign key constraint, migrating the data, and renaming the new table to the original name.
        - **General SQLite Constraints**: Remember, `ALTER TABLE` in SQLite is limited and cannot add constraints after the table is created.
        - **Conditional Logic**: Ensure the script uses SQLite-compatible syntax and does not include unsupported features.
    ".

(** The object literal that [generateSQLPrompt] indexes with
    [databaseType]. *)
Definition dialectTexts : gmap string string :=
  list_to_map
    [ ("POSTGRESQL", postgresqlInstructions); ("MYSQL", mysqlInstructions);
      ("SQL_SERVER", sqlServerInstructions); ("MARIADB", mariadbInstructions);
      ("SQLITE", sqliteInstructions) ].

(** [{...}[databaseType] || ''], as the template of the prompt prints it:
    the text of the dialect; for a name that is no key the empty string,
    unless the name is a member that the object literal inherits, which is
    truthy and prints as its [toString]. *)
Definition dialectInstructions (databaseType : string) : string :=
  match dialectTexts !! databaseType with
  | Some text => text
  | None =>
      match JS.objectPrototype databaseType with
      | Some member => JS.toPrimitive member
      | None => ""
      end
  end.

Definition additionalInstructions : string :=
  "
    Just answer with the script with no additional details. give the commands flat without markdown.

    No images are allowed. Do not try to generate or link images, including base64 data URLs.

    Feel free to suggest corrections for suspected typos.
    ".

Definition generateSQLPrompt (databaseType sqlScript : string) : string :=
  basePrompt databaseType +:+ LF +:+ dialectInstructions databaseType
  +:+ "

        - **Validation**: After generating the script, validate it against the respective SQL dialect by attempting to execute it in a corresponding database environment.
        - **Syntax Checking**: Use SQL linting tools specific to each dialect to ensure the script is free from syntax errors.
        - **Manual Review**: Include a step where a knowledgeable developer reviews the generated script to ensure it meets the required specifications and adheres to best practices.

        Here is the SQL script that needs to be optimized or generated according to the instructions above:

        "
  +:+ sqlScript
  +:+ "

        "
  +:+ additionalInstructions
  +:+ "
    ".

(** ** Vocabulary of the properties *)

(** The concatenation of the pieces that a loop appends to the script. *)
Definition flat (pieces : list string) : string :=
  foldr String.append "" pieces.

(** A Diagram with the [type] of every field blanked: what is left is the
    tables, fields, indexes and relationships and every attribute other than
    [type]. *)
Definition eraseFieldType (field : Field.t) : Field.t := setType "" field.

Definition eraseTableTypes (table : Table.t) : Table.t :=
  setFields (eraseFieldType <$> Table.fields table) table.

Definition eraseTypes (diagram : Diagram.t) : Diagram.t :=
  Diagram.mk (fmap (M := list) eraseTableTypes <$> Diagram.tables diagram)
             (Diagram.relationships diagram).




(** The non-view tables as the loops of [exportBaseSQL] read them, that is
    after the alignment, and the relationships it walks. *)
Definition nonViewTables (diagram : Diagram.t) : list Table.t :=
  match Diagram.tables (alignForeignKeyDataTypes diagram) with
  | Some tables => filter (λ table, Table.isView table = false) tables
  | None => []
  end.

Definition relationshipsOf (diagram : Diagram.t) : list Relationship.t :=
  match Diagram.relationships diagram with
  | Some relationships => relationships
  | None => []
  end.

(** The table and the field that [exportBaseSQL] finds for one end of a
    relationship. *)
Definition resolveEndpoint (nonViewTables : list Table.t)
    (tableId fieldId : string) : option (Table.t * Field.t) :=
  table ← findTable tableId nonViewTables;
  field ← snd <$> findField fieldId (Table.fields table);
  Some (table, field).

(** The fields that the alignment finds for the two ends of a relationship,
    as references: (table position, field position). *)
Definition endpoints (tableMap : gmap string nat) (tables : list Table.t)
    (relationship : Relationship.t) : option ((nat * nat) * (nat * nat)) :=
  si ← tableMap !! Relationship.sourceTableId relationship;
  ti ← tableMap !! Relationship.targetTableId relationship;
  sourceTable ← tables !! si;
  targetTable ← tables !! ti;
  sourceField ← findField (Relationship.sourceFieldId relationship)
                          (Table.fields sourceTable);
  targetField ← findField (Relationship.targetFieldId relationship)
                          (Table.fields targetTable);
  Some ((si, sourceField.1), (ti, targetField.1)).

Definition endpointList (tableMap : gmap string nat) (tables : list Table.t)
    (relationship : Relationship.t) : list (nat * nat) :=
  match endpoints tableMap tables relationship with
  | Some (source, target) => [source; target]
  | None => []
  end.

(** The type of the field behind a reference. *)
Definition typeAt (tables : list Table.t) (ref : nat * nat) : option string :=
  table ← tables !! ref.1;
  field ← Table.fields table !! ref.2;
  Some (Field.type field).

(** No field is an end of two relationships of the list. *)
Fixpoint pairwiseDisjoint (ends : list (list (nat * nat))) : bool :=
  match ends with
  | [] => true
  | l :: rest =>
      forallb (λ l', forallb (λ ref, negb (bool_decide (ref ∈ l'))) l) rest
      && pairwiseDisjoint rest
  end.

Definition noSharedEndpoint (diagram : Diagram.t) : bool :=
  match Diagram.tables diagram, Diagram.relationships diagram with
  | Some tables, Some relationships =>
      pairwiseDisjoint
        (endpointList (setTables 0 tables ∅) tables <$> relationships)
  | _, _ => true
  end.

(** Neither end of the relationship is wider than the other one. *)
Definition balanced (tableMap : gmap string nat) (tables : list Table.t)
    (relationship : Relationship.t) : bool :=
  match endpoints tableMap tables relationship with
  | Some (source, target) =>
      match typeAt tables source, typeAt tables target with
      | Some a, Some b =>
          negb (JS.gt (getMySQLDataTypeSize a) (getMySQLDataTypeSize b))
          && negb (JS.gt (getMySQLDataTypeSize b) (getMySQLDataTypeSize a))
      | _, _ => true
      end
  | None => true
  end.

(** The weight that the lookup table gives a type, [0] for a type that the
    table does not list. *)
Definition tableWeight (type : string) : N :=
  default 0%N (dataTypeSizes !! JS.toLowerCase type).

(** The names of the fields that the [fieldIds] of an index resolve to in
    its table, in [fieldIds] order. *)
Definition resolvedNames (table : Table.t) (index : Index.t) : list string :=
  omap (λ fieldId,
          Field.name <$> (snd <$> findField fieldId (Table.fields table)))
       (Index.fieldIds index).

(** The [NOT NULL], [DEFAULT] and [PRIMARY KEY] clauses of a column, and the
    separator after it. *)
Definition columnConstraints (field : Field.t) : string :=
  (if negb (Field.nullable field) then " NOT NULL" else "")
  +:+ (if JS.truthyString (Field.default field)
       then " DEFAULT " +:+ JS.showString (Field.default field) else "")
  +:+ (if Field.primaryKey field then " PRIMARY KEY" else "").

Definition columnSeparator (fieldCount index : nat) : string :=
  if (Z.of_nat index <? Z.of_nat fieldCount - 1)%Z then "," +:+ LF else "".

(** A column that carries the length clause and no precision clause. *)
Definition lengthOnlyColumn (field : Field.t) : string :=
  "  " +:+ Field.name field +:+ " " +:+ Field.type field
  +:+ "(" +:+ JS.showNumber (Field.characterMaximumLength field) +:+ ")"
  +:+ columnConstraints field.

(** ** Sample diagrams *)

Definition plainField (id name type : string) : Field.t :=
  Field.mk id name type None None None true None false.

(** The [users] and [orders] tables of the specification's example, with the
    relationship from [users.id] to [orders.user_id]. *)
Definition usersTable : Table.t :=
  Table.mk "t_users" "users" false
    [ Field.mk "u_id" "id" "integer" None None None true None true;
      Field.mk "u_name" "name" "varchar" (Some 255%N) None None false None
               false ]
    [ Index.mk "idx_users_name" false ["u_name"] ].

Definition ordersTable : Table.t :=
  Table.mk "t_orders" "orders" false
    [ Field.mk "o_id" "id" "integer" None None None true None true;
      Field.mk "o_user" "user_id" "smallint" None None None false None false ]
    [].

Definition fkOrdersUser : Relationship.t :=
  Relationship.mk "fk_orders_user" "t_users" "u_id" "t_orders" "o_user".

Definition shopDiagram : Diagram.t :=
  Diagram.mk (Some [usersTable; ordersTable]) (Some [fkOrdersUser]).

(** A column with a length, a precision and a scale. *)
Definition priceField : Field.t :=
  Field.mk "p" "price" "decimal" (Some 10%N) (Some 8%N) (Some 2%N) false None
           false.

(** A chain of two relationships through the field [b]. *)
Definition chainTable : Table.t :=
  Table.mk "t" "chain" false
    [ plainField "a" "a" "tinyint"; plainField "b" "b" "smallint";
      plainField "c" "c" "bigint" ]
    [].

Definition chainDiagram : Diagram.t :=
  Diagram.mk (Some [chainTable])
    (Some [ Relationship.mk "r1" "t" "a" "t" "b";
            Relationship.mk "r2" "t" "b" "t" "c" ]).

(** Two relationships that share no field. *)
Definition pairsTable : Table.t :=
  Table.mk "t" "pairs" false
    [ plainField "a" "a" "tinyint"; plainField "b" "b" "smallint";
      plainField "c" "c" "bigint"; plainField "d" "d" "float" ]
    [].

Definition pairsDiagram : Diagram.t :=
  Diagram.mk (Some [pairsTable])
    (Some [ Relationship.mk "r1" "t" "a" "t" "b";
            Relationship.mk "r2" "t" "c" "t" "d" ]).

(** A [bigint] column that references a column of the type [constructor]. *)
Definition constructorDiagram : Diagram.t :=
  Diagram.mk
    (Some [ Table.mk "t" "things" false
              [ plainField "a" "a" "bigint"; plainField "b" "b" "constructor" ]
              [] ])
    (Some [ Relationship.mk "r" "t" "a" "t" "b" ]).

(** A table whose only indexed field has the empty name. *)
Definition unnamedTable : Table.t :=
  Table.mk "t" "notes" false [ plainField "f" "" "text" ]
    [ Index.mk "idx_notes" false ["f"] ].

Definition unnamedIndex : Index.t := Index.mk "idx_notes" false ["f"].

(** A view over [users] and a relationship from the view to [orders]. *)
Definition usersView : Table.t :=
  Table.mk "v_users" "active_users" true
    [ plainField "v_id" "id" "bigint" ]
    [ Index.mk "idx_view" false ["v_id"] ].

Definition fkView : Relationship.t :=
  Relationship.mk "fk_view" "v_users" "v_id" "t_orders" "o_user".


Definition onlyViewsDiagram : Diagram.t :=
  Diagram.mk (Some [usersView]) (Some [fkView]).

(** A relationship to a table that does not exist. *)
Definition fkMissing : Relationship.t :=
  Relationship.mk "fk_missing" "t_orders" "o_id" "t_gone" "g_id".

Definition danglingDiagram : Diagram.t :=
  Diagram.mk (Some [usersTable; ordersTable]) (Some [fkMissing; fkOrdersUser]).

(** A table without fields, with an index. *)
Definition emptyTable : Table.t :=
  Table.mk "t_empty" "empty" false [] [ Index.mk "idx_empty" true ["x"] ].

Definition emptyTableDiagram : Diagram.t :=
  Diagram.mk (Some [usersTable; emptyTable]) None.

(** ** Vocabulary of the further properties *)

(** The text of a column, without the separator that may follow it. *)
Definition columnLine (field : Field.t) : string :=
  "  " +:+ Field.name field +:+ " " +:+ Field.type field
  +:+ (if JS.truthyNumber (Field.characterMaximumLength field)
       then "(" +:+ JS.showNumber (Field.characterMaximumLength field) +:+ ")"
       else "")
  +:+ (if JS.truthyNumber (Field.precision field)
       then if JS.truthyNumber (Field.scale field)
            then "(" +:+ JS.showNumber (Field.precision field) +:+ ", "
                     +:+ JS.showNumber (Field.scale field) +:+ ")"
            else "(" +:+ JS.showNumber (Field.precision field) +:+ ")"
       else "")
  +:+ columnConstraints field.

(** A character is an upper-case ASCII letter; a string holds one. *)
Definition isUpper (c : Ascii.ascii) : bool :=
  ((65 <=? Ascii.N_of_ascii c) && (Ascii.N_of_ascii c <=? 90))%N.

Fixpoint hasUpper (s : string) : bool :=
  match s with
  | EmptyString => false
  | String c s' => isUpper c || hasUpper s'
  end.

(** The type of the field behind a reference, in a Diagram. *)
Definition typeIn (diagram : Diagram.t) (ref : nat * nat) : option string :=
  Diagram.tables diagram ≫= λ tables, typeAt tables ref.

(** The assignment that the step of a relationship makes, if it makes one:
    the reference it writes to and the type it writes. *)
Definition stepWrite (tableMap : gmap string nat) (tables : list Table.t)
    (relationship : Relationship.t) : option ((nat * nat) * string) :=
  match endpoints tableMap tables relationship with
  | Some (source, target) =>
      match typeAt tables source, typeAt tables target with
      | Some a, Some b =>
          if JS.gt (getMySQLDataTypeSize a) (getMySQLDataTypeSize b)
          then Some (target, a)
          else if JS.gt (getMySQLDataTypeSize b) (getMySQLDataTypeSize a)
          then Some (source, b)
          else None
      | _, _ => None
      end
  | None => None
  end.

Definition applyWrite (write : option ((nat * nat) * string))
    (tables : list Table.t) : list Table.t :=
  match write with
  | Some (ref, type) => assignType ref.1 ref.2 type tables
  | None => tables
  end.

(** ** Vocabulary of the lines of the script *)

(** The character of [LF]. *)
Definition isLF (c : Ascii.ascii) : bool :=
  Ascii.eqb c (Ascii.ascii_of_nat 10).

(** A text without a line feed. *)
Fixpoint singleLine (s : string) : bool :=
  match s with
  | EmptyString => true
  | String c s' => negb (isLF c) && singleLine s'
  end.

(** The lines of a text, as [text.split('\n')] gives them: the pieces
    between the line feeds, the piece after the last line feed included. *)
Fixpoint lines (s : string) : list string :=
  match s with
  | EmptyString => [EmptyString]
  | String c s' =>
      if isLF c then EmptyString :: lines s'
      else match lines s' with
           | line :: rest => String c line :: rest
           | [] => [String c EmptyString]
           end
  end.

(** The text that holds the given lines, each one ended by a line feed. *)
Definition unlines (ls : list string) : string :=
  flat ((λ line, line +:+ LF) <$> ls).

(** A text made of whole lines that all satisfy [ok]. *)
Definition linesOf (ok : string → bool) (s : string) : Prop :=
  ∃ ls, s = unlines ls
        ∧ Forall (λ line, singleLine line = true ∧ ok line = true) ls.

(** An [ALTER TABLE] line; a [CREATE TABLE], [CREATE INDEX] or
    [CREATE UNIQUE INDEX] line. *)
Definition isAlterTable (line : string) : bool :=
  String.prefix "ALTER TABLE " line.

Definition isCreate (line : string) : bool :=
  String.prefix "CREATE TABLE " line
  || String.prefix "CREATE INDEX " line
  || String.prefix "CREATE UNIQUE INDEX " line.

(** No name, type or default value of the Diagram holds a line feed. *)
Definition singleLineField (field : Field.t) : bool :=
  singleLine (Field.name field) && singleLine (Field.type field)
  && singleLine (JS.showString (Field.default field)).

Definition singleLineTable (table : Table.t) : bool :=
  singleLine (Table.name table)
  && forallb singleLineField (Table.fields table)
  && forallb (λ index, singleLine (Index.name index)) (Table.indexes table).

Definition singleLineDiagram (diagram : Diagram.t) : bool :=
  forallb singleLineTable (default [] (Diagram.tables diagram))
  && forallb (λ relationship, singleLine (Relationship.name relationship))
             (relationshipsOf diagram).

(** Two tables, the first with a default value of two lines. *)
Definition multilineDiagram : Diagram.t :=
  Diagram.mk
    (Some [ Table.mk "t_a" "a" false
              [ Field.mk "x" "x" "integer" None None None true
                  (Some ("0" +:+ LF +:+ "ALTER TABLE a ADD CHECK (x >= 0)"))
                  false ]
              [];
            Table.mk "t_b" "b" false [ plainField "y" "y" "integer" ] [] ])
    (Some []).

(** * Properties *)

(** ** Text *)

Section text.

Lemma append_cons (c : Ascii.ascii) (s1 s2 : string) :
  String c s1 +:+ s2 = String c (s1 +:+ s2).
Proof. reflexivity. Qed.

Lemma append_nil_r (s : string) : s +:+ "" = s.
Proof.
  induction s as [|c s IH]; [done|]. by rewrite append_cons, IH.
Qed.

Lemma append_assoc (s1 s2 s3 : string) :
  (s1 +:+ s2) +:+ s3 = s1 +:+ s2 +:+ s3.
Proof.
  induction s1 as [|c s1 IH]; [done|]. by rewrite !append_cons, IH.
Qed.

Lemma append_eq_nil (s1 s2 : string) : s1 +:+ s2 = "" → s1 = "" ∧ s2 = "".
Proof. destruct s1; [done|]. rewrite append_cons. discriminate. Qed.

Lemma flat_cons (x : string) (l : list string) : flat (x :: l) = x +:+ flat l.
Proof. reflexivity. Qed.

Lemma flat_app (l1 l2 : list string) : flat (l1 ++ l2) = flat l1 +:+ flat l2.
Proof.
  induction l1 as [|x l1 IH]; [done|].
  by rewrite <- app_comm_cons, !flat_cons, IH, append_assoc.
Qed.

Lemma flat_nil_pieces (l : list string) : Forall (λ x, x = "") l → flat l = "".
Proof. induction 1 as [|x l -> _ IH]; [done|]. by rewrite flat_cons, IH. Qed.

(** A loop whose body only appends to the script appends the pieces of its
    iterations in order. *)
Lemma foldl_appends {A : Type} (body : string → A → string) (l : list A) :
  (∀ s x, body s x = s +:+ body "" x) →
  ∀ s, foldl body s l = s +:+ flat (body "" <$> l).
Proof.
  intros Hbody. induction l as [|x l IH]; intros s; cbn [foldl fmap list_fmap].
  - symmetry. apply append_nil_r.
  - rewrite IH, Hbody, flat_cons, append_assoc. done.
Qed.

Lemma forEachFrom_appends {A : Type} (body : string → A → nat → string)
    (l : list A) :
  (∀ s x i, body s x i = s +:+ body "" x i) →
  ∀ i s, forEachFrom body i l s = s +:+ forEachFrom body i l "".
Proof.
  intros Hbody. induction l as [|x l IH]; intros i s; cbn [forEachFrom].
  - by rewrite append_nil_r.
  - rewrite IH, (IH _ (body "" x i)), Hbody, append_assoc. done.
Qed.

Lemma join_cons_ne (sep x : string) (l : list string) :
  x ≠ "" → JS.join sep (x :: l) ≠ "".
Proof.
  intros Hx. destruct l as [|y l]; cbn [JS.join]; [done|].
  intros [? _]%append_eq_nil. done.
Qed.

Lemma truthyString_Some (s : string) :
  JS.truthyString (Some s) = bool_decide (s ≠ "").
Proof. by destruct s. Qed.

End text.

(** ** The pieces of the script *)

Section pieces.

(** A conditional clause, appended or not. *)
Local Ltac clause :=
  repeat match goal with
    | |- context [if ?b then _ else _] => destruct b
    end;
  rewrite ?append_assoc, ?append_nil_r; try done.

Lemma exportField_appends (n : nat) (s : string) (f : Field.t) (i : nat) :
  exportField n s f i = s +:+ exportField n "" f i.
Proof. unfold exportField. cbn zeta. clause. Qed.

Lemma exportField_clauses (n : nat) (s : string) (f : Field.t) (i : nat) :
  exportField n s f i =
    s +:+ "  " +:+ Field.name f +:+ " " +:+ Field.type f
      +:+ (if JS.truthyNumber (Field.characterMaximumLength f)
           then "(" +:+ JS.showNumber (Field.characterMaximumLength f) +:+ ")"
           else "")
      +:+ (if JS.truthyNumber (Field.precision f)
           then if JS.truthyNumber (Field.scale f)
                then "(" +:+ JS.showNumber (Field.precision f) +:+ ", "
                         +:+ JS.showNumber (Field.scale f) +:+ ")"
                else "(" +:+ JS.showNumber (Field.precision f) +:+ ")"
           else "")
      +:+ columnConstraints f +:+ columnSeparator n i.
Proof.
  unfold exportField, columnConstraints, columnSeparator. cbn zeta.
  destruct (JS.truthyNumber (Field.characterMaximumLength f)),
    (JS.truthyNumber (Field.precision f)), (JS.truthyNumber (Field.scale f));
    cbn [andb]; clause.
Qed.

Lemma exportIndex_appends (t : Table.t) (s : string) (ix : Index.t) :
  exportIndex t s ix = s +:+ exportIndex t "" ix.
Proof. unfold exportIndex. cbn zeta. clause. Qed.

Lemma exportRelationship_appends (nv : list Table.t) (s : string)
    (r : Relationship.t) :
  exportRelationship nv s r = s +:+ exportRelationship nv "" r.
Proof.
  unfold exportRelationship. cbn zeta.
  repeat case_match; rewrite ?append_nil_r; done.
Qed.

(** The block of a table: the [CREATE TABLE] statement, the lines of its
    indexes, and a line feed. *)
Lemma exportTable_block (s : string) (t : Table.t) :
  exportTable s t =
    s +:+ ("CREATE TABLE " +:+ Table.name t +:+ " (" +:+ LF
           +:+ forEach (exportField (length (Table.fields t)))
                       (Table.fields t) ""
           +:+ LF +:+ ");" +:+ LF +:+ LF)
      +:+ flat (exportIndex t "" <$> Table.indexes t) +:+ LF.
Proof.
  unfold exportTable, forEach. cbn zeta.
  rewrite (foldl_appends _ _ (exportIndex_appends t)).
  rewrite (forEachFrom_appends _ _ (exportField_appends _)).
  rewrite !append_assoc. done.
Qed.

Lemma exportTable_appends (s : string) (t : Table.t) :
  exportTable s t = s +:+ exportTable "" t.
Proof. by rewrite (exportTable_block s), (exportTable_block ""). Qed.

(** What one relationship adds: nothing, or one [ALTER TABLE] line. *)
Lemma exportRelationship_resolved (nv : list Table.t) (r : Relationship.t) :
  exportRelationship nv "" r =
    match resolveEndpoint nv (Relationship.sourceTableId r)
                          (Relationship.sourceFieldId r),
          resolveEndpoint nv (Relationship.targetTableId r)
                          (Relationship.targetFieldId r) with
    | Some (sourceTable, sourceField), Some (targetTable, targetField) =>
        "ALTER TABLE " +:+ Table.name sourceTable
          +:+ " ADD CONSTRAINT " +:+ Relationship.name r
          +:+ " FOREIGN KEY (" +:+ Field.name sourceField
          +:+ ") REFERENCES " +:+ Table.name targetTable
          +:+ " (" +:+ Field.name targetField +:+ ");" +:+ LF
    | _, _ => ""
    end.
Proof.
  unfold exportRelationship, resolveEndpoint. cbn zeta.
  destruct (findTable (Relationship.sourceTableId r) nv) as [st|]; cbn;
    [|by repeat case_match].
  destruct (findTable (Relationship.targetTableId r) nv) as [tt|]; cbn;
    [|by repeat case_match].
  destruct (findField (Relationship.sourceFieldId r) (Table.fields st))
    as [[? sf]|]; cbn; [|done].
  by destruct (findField (Relationship.targetFieldId r) (Table.fields tt))
    as [[? tf]|].
Qed.

End pieces.

(** ** What the alignment leaves alone *)

Section frame.

Lemma cons_eq_inv {A : Type} (x y : A) (l k : list A) :
  x :: l = y :: k → x = y ∧ l = k.
Proof. by intros [= -> ->]. Qed.

Lemma fmap_alter_absorb {A B : Type} (f : A → B) (g : A → A) (l : list A)
    (i : nat) :
  (∀ x, f (g x) = f x) → f <$> alter g i l = f <$> l.
Proof.
  intros Hfg. rewrite (list_fmap_alter f g id).
  - by apply list_alter_id.
  - apply Forall_forall. intros x _. apply Hfg.
Qed.

Lemma eraseTableTypes_setFields (ty : string) (fi : nat) (t : Table.t) :
  eraseTableTypes (setFields (alter (setType ty) fi (Table.fields t)) t)
  = eraseTableTypes t.
Proof.
  unfold eraseTableTypes, setFields. cbn [Table.id Table.name Table.isView
    Table.fields Table.indexes].
  by rewrite (fmap_alter_absorb eraseFieldType).
Qed.

Lemma assignType_shape (ti fi : nat) (ty : string) (ts : list Table.t) :
  eraseTableTypes <$> assignType ti fi ty ts = eraseTableTypes <$> ts.
Proof.
  unfold assignType. apply fmap_alter_absorb. intros t.
  apply eraseTableTypes_setFields.
Qed.

Lemma alignRelationship_shape (m : gmap string nat) (ts : list Table.t)
    (r : Relationship.t) :
  eraseTableTypes <$> alignRelationship m ts r = eraseTableTypes <$> ts.
Proof.
  unfold alignRelationship. repeat case_match; auto using assignType_shape.
Qed.

Lemma foldl_alignRelationship_shape (m : gmap string nat)
    (rs : list Relationship.t) (ts : list Table.t) :
  eraseTableTypes <$> foldl (alignRelationship m) ts rs
  = eraseTableTypes <$> ts.
Proof.
  revert ts. induction rs as [|r rs IH]; intros ts; cbn [foldl]; [done|].
  by rewrite IH, alignRelationship_shape.
Qed.

(** The tables after the alignment: as many, with the same shape. *)
Lemma alignForeignKeyDataTypes_tables (d : Diagram.t) (ts : list Table.t) :
  Diagram.tables d = Some ts →
  ∃ ts', Diagram.tables (alignForeignKeyDataTypes d) = Some ts'
         ∧ eraseTableTypes <$> ts' = eraseTableTypes <$> ts.
Proof.
  intros Hts. unfold alignForeignKeyDataTypes. rewrite Hts.
  destruct (Diagram.relationships d) as [rs|]; [|by eauto].
  case_match; [by eauto|]. cbn [Diagram.tables].
  eauto using foldl_alignRelationship_shape.
Qed.

Lemma alignForeignKeyDataTypes_relationships (d : Diagram.t) :
  Diagram.relationships (alignForeignKeyDataTypes d) = Diagram.relationships d.
Proof.
  unfold alignForeignKeyDataTypes.
  destruct (Diagram.tables d), (Diagram.relationships d) eqn:Hrs; try done.
  by case_match.
Qed.

Lemma alignForeignKeyDataTypes_no_tables (d : Diagram.t) :
  Diagram.tables d = None ∨ Diagram.tables d = Some [] →
  alignForeignKeyDataTypes d = d.
Proof.
  unfold alignForeignKeyDataTypes. intros [-> | ->]; [done|].
  by destruct (Diagram.relationships d).
Qed.

Lemma shape_lookup (ts ts' : list Table.t) (i : nat) (t' : Table.t) :
  eraseTableTypes <$> ts' = eraseTableTypes <$> ts →
  ts' !! i = Some t' →
  ∃ t, ts !! i = Some t ∧ eraseTableTypes t' = eraseTableTypes t.
Proof.
  intros Hshape Ht'.
  assert ((eraseTableTypes <$> ts) !! i = Some (eraseTableTypes t')) as H.
  { by rewrite <- Hshape, list_lookup_fmap, Ht'. }
  rewrite list_lookup_fmap in H.
  destruct (ts !! i) as [t|]; [|done]. exists t. split; [done|].
  cbn in H. congruence.
Qed.

Lemma shape_isView (t t' : Table.t) :
  eraseTableTypes t' = eraseTableTypes t → Table.isView t' = Table.isView t.
Proof. intros H. apply (f_equal Table.isView) in H. exact H. Qed.

Lemma shape_id (t t' : Table.t) :
  eraseTableTypes t' = eraseTableTypes t → Table.id t' = Table.id t.
Proof. intros H. apply (f_equal Table.id) in H. exact H. Qed.

Lemma shape_fields (t t' : Table.t) :
  eraseTableTypes t' = eraseTableTypes t →
  eraseFieldType <$> Table.fields t' = eraseFieldType <$> Table.fields t.
Proof. intros H. apply (f_equal Table.fields) in H. exact H. Qed.

(** A table without fields is the same table after the alignment. *)
Lemma shape_no_fields (t t' : Table.t) :
  eraseTableTypes t' = eraseTableTypes t → Table.fields t = [] → t' = t.
Proof.
  intros H Hnil. pose proof (shape_fields _ _ H) as Hf.
  rewrite Hnil in Hf. apply fmap_nil_inv in Hf.
  destruct t, t'. cbn in *. subst.
  unfold eraseTableTypes, setFields in H. cbn in H. by injection H as -> -> -> ->.
Qed.

(** [nonViewTables], taken before the alignment as references, reads after
    it as the non-view tables of the aligned list. *)
Lemma deref_filterNonView_from (ts heap pre : list Table.t) :
  eraseTableTypes <$> heap = eraseTableTypes <$> ts →
  deref (pre ++ heap) (filterNonView (length pre) ts)
  = filter (λ t, Table.isView t = false) heap.
Proof.
  revert heap pre. induction ts as [|t ts IH]; intros heap pre Hshape.
  - apply fmap_nil_inv in Hshape as ->. done.
  - destruct heap as [|h heap]; [done|].
    apply cons_eq_inv in Hshape as [Hh Hrest]. apply shape_isView in Hh.
    specialize (IH heap (pre ++ [h]) Hrest).
    rewrite length_app, Nat.add_1_r, <- app_assoc in IH. cbn [app] in IH.
    cbn [filterNonView]. rewrite filter_cons, <- Hh.
    destruct (Table.isView h); cbn [negb].
    + rewrite decide_False by done. exact IH.
    + rewrite decide_True by done. unfold deref in *. cbn [omap list_omap].
      rewrite list_lookup_middle by done. cbn. by rewrite IH.
Qed.

Lemma deref_filterNonView (ts heap : list Table.t) :
  eraseTableTypes <$> heap = eraseTableTypes <$> ts →
  deref heap (filterNonView 0 ts) = filter (λ t, Table.isView t = false) heap.
Proof. apply (deref_filterNonView_from ts heap []). Qed.

Lemma exportRelationship_nil (r : Relationship.t) :
  exportRelationship [] "" r = "".
Proof. reflexivity. Qed.

(** The script: the blocks of the non-view tables in table order, then what
    the relationships add in relationship order. *)
Lemma exportBaseSQL_script (d : Diagram.t) :
  (exportBaseSQL d).2 =
    flat (exportTable "" <$> nonViewTables d)
    +:+ flat (exportRelationship (nonViewTables d) "" <$> relationshipsOf d).
Proof.
  unfold exportBaseSQL, nonViewTables.
  destruct (Diagram.tables d) as [[|t ts]|] eqn:Hts.
  - rewrite alignForeignKeyDataTypes_no_tables, Hts by auto. cbn.
    symmetry. apply flat_nil_pieces, Forall_fmap, Forall_forall.
    intros r _. apply exportRelationship_nil.
  - destruct (alignForeignKeyDataTypes_tables d _ Hts) as (ts' & -> & Hshape).
    cbn [length Nat.eqb snd].
    rewrite (deref_filterNonView _ _ Hshape).
    rewrite (foldl_appends _ _ exportTable_appends). cbn [String.append].
    unfold relationshipsOf. destruct (Diagram.relationships d) as [rs|].
    + by rewrite (foldl_appends _ _ (exportRelationship_appends _)).
    + by rewrite append_nil_r.
  - rewrite alignForeignKeyDataTypes_no_tables, Hts by auto. cbn.
    symmetry. apply flat_nil_pieces, Forall_fmap, Forall_forall.
    intros r _. apply exportRelationship_nil.
Qed.

End frame.

(** ** The Diagram after the calls *)

Section diagram.

Lemma alignForeignKeyDataTypes_shape (d : Diagram.t) :
  fmap (M := list) eraseTableTypes <$> Diagram.tables (alignForeignKeyDataTypes d)
  = fmap (M := list) eraseTableTypes <$> Diagram.tables d.
Proof.
  destruct (Diagram.tables d) as [ts|] eqn:Hts.
  - destruct (alignForeignKeyDataTypes_tables d ts Hts) as (ts' & -> & Hshape).
    cbn. by rewrite Hshape.
  - by rewrite alignForeignKeyDataTypes_no_tables, Hts by auto.
Qed.

(** C8. The Type Unifier only overwrites [Field.type] values: with the type
    of every field blanked, the Diagram after [alignForeignKeyDataTypes] is
    the Diagram before it.  The tables, their fields and indexes, the
    relationships and every attribute other than [type] are the same, in the
    same order; nothing is added or removed. *)
Theorem alignForeignKeyDataTypes_only_types (d : Diagram.t) :
  eraseTypes (alignForeignKeyDataTypes d) = eraseTypes d.
Proof.
  unfold eraseTypes.
  by rewrite alignForeignKeyDataTypes_shape,
    alignForeignKeyDataTypes_relationships.
Qed.

(** C1, as the claim states it, fails: [exportBaseSQL] leaves the sample
    Diagram with [orders.user_id] retyped from [smallint] to [integer]. *)
Lemma exportBaseSQL_mutates_shopDiagram :
  (exportBaseSQL shopDiagram).1 ≠ shopDiagram
  ∧ Diagram.tables (exportBaseSQL shopDiagram).1
    = Some [ usersTable;
             setFields
               [ Field.mk "o_id" "id" "integer" None None None true None true;
                 Field.mk "o_user" "user_id" "integer" None None None false
                          None false ]
               ordersTable ].
Proof. split; [|by vm_compute]. vm_compute. discriminate. Qed.

(** C1, amended.  [exportBaseSQL] runs the alignment itself: the Diagram
    after the call is the Diagram that [alignForeignKeyDataTypes] makes of
    the Diagram before the call, so the two differ in [Field.type] values
    only; the loops that write the script change nothing more. *)
Theorem exportBaseSQL_diagram (d : Diagram.t) :
  (exportBaseSQL d).1 = alignForeignKeyDataTypes d
  ∧ eraseTypes (exportBaseSQL d).1 = eraseTypes d.
Proof.
  assert ((exportBaseSQL d).1 = alignForeignKeyDataTypes d) as ->.
  { unfold exportBaseSQL.
    destruct (Diagram.tables d) as [[|t ts]|] eqn:Hts; cbn;
      by rewrite ?alignForeignKeyDataTypes_no_tables by auto. }
  split; [done|]. unfold eraseTypes.
  by rewrite alignForeignKeyDataTypes_shape,
    alignForeignKeyDataTypes_relationships.
Qed.

End diagram.

(** ** Columns *)

Section columns.

(** C2, as the claim states it, fails: the sample column has a length and a
    precision, and its line carries the precision clause after the length
    clause. *)
Lemma length_and_precision_both_emitted :
  JS.truthyNumber (Field.characterMaximumLength priceField) = true
  ∧ JS.truthyNumber (Field.precision priceField) = true
  ∧ exportField 1 "" priceField 0 = "  price decimal(10)(8, 2) NOT NULL"
  ∧ exportField 1 "" priceField 0 ≠ lengthOnlyColumn priceField.
Proof. repeat split; by vm_compute. Qed.

(** C2, amended.  For a field whose [characterMaximumLength] and [precision]
    are both set (truthy: a positive number), the column line carries the
    [(length)] clause and, right after it, the [(precision, scale)] clause
    when [scale] is set too and the [(precision)] clause otherwise. *)
Theorem exportField_length_then_precision (n : nat) (s : string)
    (f : Field.t) (i : nat) :
  JS.truthyNumber (Field.characterMaximumLength f) = true →
  JS.truthyNumber (Field.precision f) = true →
  exportField n s f i =
    s +:+ "  " +:+ Field.name f +:+ " " +:+ Field.type f
      +:+ ("(" +:+ JS.showNumber (Field.characterMaximumLength f) +:+ ")")
      +:+ (if JS.truthyNumber (Field.scale f)
           then "(" +:+ JS.showNumber (Field.precision f) +:+ ", "
                    +:+ JS.showNumber (Field.scale f) +:+ ")"
           else "(" +:+ JS.showNumber (Field.precision f) +:+ ")")
      +:+ columnConstraints f +:+ columnSeparator n i.
Proof.
  intros Hlength Hprecision.
  by rewrite exportField_clauses, Hlength, Hprecision, !append_assoc.
Qed.

(** The sample column, first of two: length, precision and scale. *)
Lemma exportField_length_then_precision_witness :
  JS.truthyNumber (Field.characterMaximumLength priceField) = true
  ∧ JS.truthyNumber (Field.precision priceField) = true
  ∧ exportField 2 "" priceField 0
    = "  price decimal(10)(8, 2) NOT NULL," +:+ LF.
Proof.
  split; [reflexivity|]. split; [reflexivity|].
  rewrite (exportField_length_then_precision 2 "" priceField 0);
    reflexivity.
Defined.

End columns.

(** ** Indexes *)

Section indexes.

Lemma filterBoolean_names (l : list (option string)) :
  filterBoolean l = filter (λ name, name ≠ "") (omap id l).
Proof.
  unfold filterBoolean.
  induction l as [|[[|c name]|] l IH]; cbn [omap list_omap JS.truthyString id].
  - done.
  - rewrite filter_cons_False by (intros H; by apply H). exact IH.
  - rewrite filter_cons_True by done. by rewrite IH.
  - exact IH.
Qed.

Lemma omap_id_fmap {A B : Type} (g : A → option B) (l : list A) :
  omap id (g <$> l) = omap g l.
Proof. induction l as [|x l IH]; [done|]. cbn. by rewrite IH. Qed.

Lemma join_named (sep : string) (names : list string) :
  Forall (λ name, name ≠ "") names →
  JS.truthyString (Some (JS.join sep names)) = bool_decide (names ≠ []).
Proof.
  intros Hnames. rewrite truthyString_Some. apply bool_decide_ext.
  destruct Hnames as [|name names Hname _]; [done|].
  split; [done|]. intros _. by apply join_cons_ne.
Qed.

(** C6, as the claim states it, fails: the only [fieldId] of the sample
    index resolves, to a field whose name is empty, and the index gets no
    line. *)
Lemma index_on_unnamed_field_skipped :
  unnamedIndex ∈ Table.indexes unnamedTable
  ∧ resolvedNames unnamedTable unnamedIndex = [""]
  ∧ exportIndex unnamedTable "" unnamedIndex = "".
Proof. split; [|by vm_compute]. apply list_elem_of_here. Qed.

(** C6, amended.  What an index adds to the script is decided by the
    non-empty names among the names of the fields its [fieldIds] resolve to:
    with none, nothing; with at least one, exactly one line,
    [CREATE INDEX] or [CREATE UNIQUE INDEX] when [unique] is true, that
    lists those names, joined with a comma, in [fieldIds] order. *)
Theorem exportIndex_lists_named_fields (t : Table.t) (s : string)
    (ix : Index.t) :
  exportIndex t s ix =
    if decide (filter (λ name, name ≠ "") (resolvedNames t ix) = [])
    then s
    else
      s +:+ "CREATE " +:+ (if Index.unique ix then "UNIQUE " else "")
        +:+ "INDEX " +:+ Index.name ix +:+ " ON " +:+ Table.name t
        +:+ " ("
        +:+ JS.join ", " (filter (λ name, name ≠ "") (resolvedNames t ix))
        +:+ ");" +:+ LF.
Proof.
  unfold exportIndex. cbn zeta.
  rewrite filterBoolean_names, omap_id_fmap. fold (resolvedNames t ix).
  rewrite join_named
    by (apply Forall_forall; by intros name [? _]%list_elem_of_filter).
  case_decide as Hnames.
  - by rewrite bool_decide_eq_false_2 by (by intros ?).
  - by rewrite bool_decide_eq_true_2.
Qed.


End indexes.

(** ** What the script holds *)

Section script.

Lemma nonViewTables_elem (d : Diagram.t) (t' : Table.t) :
  t' ∈ nonViewTables d →
  Table.isView t' = false
  ∧ ∃ ts t, Diagram.tables d = Some ts ∧ t ∈ ts
            ∧ eraseTableTypes t' = eraseTableTypes t.
Proof.
  unfold nonViewTables. destruct (Diagram.tables d) as [ts|] eqn:Hts.
  - destruct (alignForeignKeyDataTypes_tables d ts Hts) as (ts' & -> & Hshape).
    intros [Hview [i Hi]%list_elem_of_lookup_1]%list_elem_of_filter.
    split; [done|].
    destruct (shape_lookup _ _ _ _ Hshape Hi) as (t & Ht & Htt').
    exists ts, t. split_and!; [done| by eapply list_elem_of_lookup_2 |done].
  - rewrite alignForeignKeyDataTypes_no_tables, Hts by auto.
    by intros ?%elem_of_nil.
Qed.

Lemma nonViewTables_no_fields (d : Diagram.t) (ts : list Table.t)
    (t : Table.t) :
  Diagram.tables d = Some ts → t ∈ ts → Table.isView t = false →
  Table.fields t = [] → t ∈ nonViewTables d.
Proof.
  intros Hts [i Hi]%list_elem_of_lookup_1 Hview Hnil. unfold nonViewTables.
  destruct (alignForeignKeyDataTypes_tables d ts Hts) as (ts' & -> & Hshape).
  symmetry in Hshape.
  destruct (shape_lookup _ _ _ _ Hshape Hi) as (t' & Ht' & Htt').
  symmetry in Htt'. apply shape_no_fields in Htt' as ->; [|done].
  apply list_elem_of_filter. eauto using list_elem_of_lookup_2.
Qed.

(** C7.  A Diagram whose tables are absent or empty exports the empty
    string, and so does a Diagram whose tables are all views, whatever its
    relationships refer to. *)
Theorem exportBaseSQL_nothing_to_emit (d : Diagram.t) :
  Diagram.tables d = None
  ∨ Diagram.tables d = Some []
  ∨ (∃ ts, Diagram.tables d = Some ts
           ∧ Forall (λ t, Table.isView t = true) ts) →
  (exportBaseSQL d).2 = "".
Proof.
  intros Hd. rewrite exportBaseSQL_script.
  assert (nonViewTables d = []) as ->.
  { apply elem_of_nil_inv. intros t' (Hview & ts & t & Hts & Ht & Htt')%nonViewTables_elem.
    destruct Hd as [Hd|[Hd|(ts0 & Hd & Hviews)]]; rewrite Hts in Hd.
    - done.
    - injection Hd as ->. by apply elem_of_nil in Ht.
    - injection Hd as ->. rewrite Forall_forall in Hviews.
      apply shape_isView in Htt'. rewrite (Hviews t Ht) in Htt'. congruence. }
  cbn [fmap list_fmap flat foldr String.append].
  apply flat_nil_pieces, Forall_fmap, Forall_forall.
  intros r _. apply exportRelationship_nil.
Qed.

(** No tables, an empty list of tables, and a single view that a
    relationship refers to. *)
Lemma exportBaseSQL_nothing_to_emit_witness :
  (exportBaseSQL (Diagram.mk None (Some [fkView]))).2 = ""
  ∧ (exportBaseSQL (Diagram.mk (Some []) (Some [fkView]))).2 = ""
  ∧ (exportBaseSQL onlyViewsDiagram).2 = "".
Proof.
  split_and!; apply exportBaseSQL_nothing_to_emit.
  - left. reflexivity.
  - right. left. reflexivity.
  - right. right. exists [usersView]. split; [reflexivity|].
    repeat constructor.
Defined.

Lemma exportIndex_no_fields (t : Table.t) (ix : Index.t) :
  Table.fields t = [] → exportIndex t "" ix = "".
Proof.
  intros Hnil. unfold exportIndex. rewrite Hnil. cbn zeta.
  assert (filterBoolean
            ((λ fieldId, Field.name <$> (snd <$> findField fieldId []))
               <$> Index.fieldIds ix) = []) as ->; [|done].
  induction (Index.fieldIds ix) as [|fieldId ids IH]; [done|]. exact IH.
Qed.

(** C10.  A non-view table without fields is not skipped: its block is
    [CREATE TABLE <name> (], two line feeds, [);] and two line feeds,
    followed by the line feed that ends every block, and the script holds
    that statement. *)
Theorem empty_table_emitted (d : Diagram.t) (ts : list Table.t)
    (t : Table.t) :
  Diagram.tables d = Some ts → t ∈ ts → Table.isView t = false →
  Table.fields t = [] →
  exportTable "" t =
    ("CREATE TABLE " +:+ Table.name t +:+ " (" +:+ LF +:+ LF +:+ ");"
       +:+ LF +:+ LF) +:+ LF
  ∧ ∃ before after,
      (exportBaseSQL d).2 =
        before
        +:+ ("CREATE TABLE " +:+ Table.name t +:+ " (" +:+ LF +:+ LF +:+ ");"
               +:+ LF +:+ LF)
        +:+ after.
Proof.
  intros Hts Ht Hview Hnil.
  assert (exportTable "" t =
            ("CREATE TABLE " +:+ Table.name t +:+ " (" +:+ LF +:+ LF +:+ ");"
               +:+ LF +:+ LF) +:+ LF) as Hblock.
  { rewrite exportTable_block, Hnil.
    rewrite flat_nil_pieces.
    - cbn [forEach forEachFrom String.append]. by rewrite !append_assoc.
    - apply Forall_fmap, Forall_forall. intros ix _.
      by apply exportIndex_no_fields. }
  split; [exact Hblock|].
  pose proof (nonViewTables_no_fields d ts t Hts Ht Hview Hnil) as Hin.
  apply list_elem_of_split in Hin as (l1 & l2 & Hsplit).
  rewrite exportBaseSQL_script, Hsplit, fmap_app, fmap_cons, flat_app,
    flat_cons, Hblock.
  exists (flat (exportTable "" <$> l1)),
    (LF +:+ flat (exportTable "" <$> l2)
        +:+ flat (exportRelationship (l1 ++ t :: l2) "" <$> relationshipsOf d)).
  by rewrite !append_assoc.
Qed.

(** The sample table [empty] has no field and one index. *)
Lemma empty_table_emitted_witness :
  ∃ before after,
    (exportBaseSQL emptyTableDiagram).2 =
      before
      +:+ ("CREATE TABLE " +:+ "empty" +:+ " (" +:+ LF +:+ LF +:+ ");"
             +:+ LF +:+ LF)
      +:+ after.
Proof.
  apply (empty_table_emitted emptyTableDiagram [usersTable; emptyTable]
           emptyTable); try reflexivity.
  apply list_elem_of_further, list_elem_of_here.
Defined.

End script.

(** ** One relationship of the alignment *)

Section step.

Lemma String_compare_refl (s : string) : String.compare s s = Eq.
Proof.
  induction s as [|c s IH]; [done|]. cbn [String.compare].
  unfold Ascii.compare. by rewrite N.compare_refl.
Qed.

Lemma String_ltb_irrefl (s : string) : String.ltb s s = false.
Proof. unfold String.ltb. by rewrite String_compare_refl. Qed.

Lemma gt_irrefl (v : JS.value) : JS.gt v v = false.
Proof.
  destruct v; cbn [JS.gt].
  - apply N.ltb_irrefl.
  - apply String_ltb_irrefl.
  - apply String_ltb_irrefl.
Qed.

Lemma typeAt_assignType_eq (ts : list Table.t) (ti fi : nat) (ty : string) :
  is_Some (typeAt ts (ti, fi)) →
  typeAt (assignType ti fi ty ts) (ti, fi) = Some ty.
Proof.
  unfold typeAt, assignType. cbn [fst snd].
  rewrite list_lookup_alter_eq.
  destruct (ts !! ti) as [t|]; cbn; [|by intros [? ?]].
  rewrite list_lookup_alter_eq.
  destruct (Table.fields t !! fi) as [f|]; cbn; [done|by intros [? ?]].
Qed.

Lemma typeAt_assignType_ne (ts : list Table.t) (ti fi : nat) (ty : string)
    (ref : nat * nat) :
  ref ≠ (ti, fi) → typeAt (assignType ti fi ty ts) ref = typeAt ts ref.
Proof.
  destruct ref as [tj fj]. intros Hne. unfold typeAt, assignType.
  cbn [fst snd]. destruct (decide (ti = tj)) as [->|Hti].
  - rewrite list_lookup_alter_eq. destruct (ts !! tj) as [t|]; cbn; [|done].
    rewrite list_lookup_alter_ne by congruence. done.
  - by rewrite list_lookup_alter_ne.
Qed.

End step.

(** The lemmas of this section share the [tableMap] of the run. *)
Section step_with_tableMap.

Variable m : gmap string nat.

(** The step in terms of the references it resolves and the types behind
    them. *)
Lemma alignRelationship_endpoints (ts : list Table.t) (r : Relationship.t) :
  alignRelationship m ts r =
    match endpoints m ts r with
    | Some (source, target) =>
        match typeAt ts source, typeAt ts target with
        | Some a, Some b =>
            if JS.gt (getMySQLDataTypeSize a) (getMySQLDataTypeSize b) then
              assignType target.1 target.2 a ts
            else if JS.gt (getMySQLDataTypeSize b) (getMySQLDataTypeSize a) then
              assignType source.1 source.2 b ts
            else ts
        | _, _ => ts
        end
    | None => ts
    end.
Proof.
  unfold alignRelationship, endpoints, findField.
  destruct (m !! Relationship.sourceTableId r) as [si|]; cbn; [|done].
  destruct (m !! Relationship.targetTableId r) as [ti|]; cbn; [|done].
  destruct (ts !! si) as [st|] eqn:Hst; cbn; [|done].
  destruct (ts !! ti) as [tt|] eqn:Htt; cbn; [|done].
  destruct (list_find _ (Table.fields st)) as [[sfi sf]|] eqn:Hsf; cbn;
    [|done].
  destruct (list_find _ (Table.fields tt)) as [[tfi tf]|] eqn:Htf; cbn;
    [|done].
  apply list_find_Some in Hsf as (Hsf & _ & _).
  apply list_find_Some in Htf as (Htf & _ & _).
  unfold typeAt. cbn [fst snd]. by rewrite Hst, Htt; cbn; rewrite Hsf, Htf.
Qed.

Lemma findField_shape (fieldId : string) (fs fs' : list Field.t) :
  eraseFieldType <$> fs' = eraseFieldType <$> fs →
  fst <$> findField fieldId fs' = fst <$> findField fieldId fs.
Proof.
  assert (∀ l, fst <$> findField fieldId (eraseFieldType <$> l)
               = fst <$> findField fieldId l) as Herase.
  { intros l. unfold findField. rewrite list_find_fmap.
    rewrite (list_find_ext _ (λ f, Field.id f = fieldId)) by done.
    by destruct (list_find _ l) as [[? ?]|]. }
  intros Hshape. by rewrite <- (Herase fs'), Hshape, Herase.
Qed.

Lemma endpoints_shape (ts ts' : list Table.t) (r : Relationship.t) :
  eraseTableTypes <$> ts' = eraseTableTypes <$> ts →
  endpoints m ts' r = endpoints m ts r.
Proof.
  intros Hshape.
  assert (∀ i fieldId,
            (ts' !! i ≫= λ t, fst <$> findField fieldId (Table.fields t))
            = (ts !! i ≫= λ t, fst <$> findField fieldId (Table.fields t)))
    as Hfind.
  { intros i fieldId.
    pose proof (f_equal (λ l, l !! i) Hshape) as Hi. cbn in Hi.
    rewrite !list_lookup_fmap in Hi.
    destruct (ts' !! i) as [t'|], (ts !! i) as [t|]; try done. cbn in *.
    apply findField_shape, shape_fields. congruence. }
  unfold endpoints.
  destruct (m !! Relationship.sourceTableId r) as [si|]; cbn; [|done].
  destruct (m !! Relationship.targetTableId r) as [ti|]; cbn; [|done].
  pose proof (Hfind si (Relationship.sourceFieldId r)) as Hs.
  pose proof (Hfind ti (Relationship.targetFieldId r)) as Ht.
  destruct (ts' !! si) as [st'|], (ts !! si) as [st|]; cbn in *;
    destruct (ts' !! ti) as [tt'|], (ts !! ti) as [tt|]; cbn in *;
    repeat match goal with
      | H : context [findField ?i ?l] |- _ =>
          destruct (findField i l) as [[? ?]|]; cbn in *
      | |- context [findField ?i ?l] =>
          destruct (findField i l) as [[? ?]|]; cbn in *
      end; congruence.
Qed.

Lemma endpointList_shape (ts ts' : list Table.t) (r : Relationship.t) :
  eraseTableTypes <$> ts' = eraseTableTypes <$> ts →
  endpointList m ts' r = endpointList m ts r.
Proof. intros Hshape. unfold endpointList. by rewrite (endpoints_shape ts). Qed.

(** After its step a relationship is balanced. *)
Lemma alignRelationship_balanced (ts : list Table.t) (r : Relationship.t) :
  balanced m (alignRelationship m ts r) r = true.
Proof.
  unfold balanced.
  rewrite (endpoints_shape ts) by apply alignRelationship_shape.
  rewrite alignRelationship_endpoints.
  destruct (endpoints m ts r) as [[s t]|]; [|done].
  destruct (typeAt ts s) as [a|] eqn:Ha; [|by rewrite Ha].
  destruct (typeAt ts t) as [b|] eqn:Hb; [|by rewrite Ha, Hb].
  destruct (JS.gt (getMySQLDataTypeSize a) (getMySQLDataTypeSize b)) eqn:Hab;
    [|destruct (JS.gt (getMySQLDataTypeSize b) (getMySQLDataTypeSize a))
        eqn:Hba].
  - destruct t as [ti tfi]. cbn [fst snd].
    rewrite typeAt_assignType_eq by (by rewrite Hb).
    destruct (decide (s = (ti, tfi))) as [->|Hne].
    + rewrite typeAt_assignType_eq by (by rewrite Hb).
      by rewrite gt_irrefl.
    + rewrite typeAt_assignType_ne, Ha by done. by rewrite gt_irrefl.
  - destruct s as [si sfi]. cbn [fst snd].
    rewrite typeAt_assignType_eq by (by rewrite Ha).
    destruct (decide (t = (si, sfi))) as [->|Hne].
    + rewrite typeAt_assignType_eq by (by rewrite Ha).
      by rewrite gt_irrefl.
    + rewrite typeAt_assignType_ne, Hb by done. by rewrite gt_irrefl.
  - by rewrite Ha, Hb, Hab, Hba.
Qed.

(** A balanced relationship is left alone. *)
Lemma balanced_alignRelationship (ts : list Table.t) (r : Relationship.t) :
  balanced m ts r = true → alignRelationship m ts r = ts.
Proof.
  unfold balanced. rewrite alignRelationship_endpoints.
  destruct (endpoints m ts r) as [[s t]|]; [|done].
  destruct (typeAt ts s) as [a|]; [|done].
  destruct (typeAt ts t) as [b|]; [|done].
  intros [Hab Hba]%andb_true_iff.
  apply negb_true_iff in Hab, Hba. by rewrite Hab, Hba.
Qed.

(** The step of a relationship keeps balanced every relationship that shares
    no field with it. *)
Lemma balanced_frame (ts : list Table.t) (r r' : Relationship.t) :
  (∀ ref, ref ∈ endpointList m ts r → ref ∉ endpointList m ts r') →
  balanced m ts r = true →
  balanced m (alignRelationship m ts r') r = true.
Proof.
  intros Hdisjoint. unfold balanced.
  rewrite (endpoints_shape ts (alignRelationship m ts r') r)
    by apply alignRelationship_shape.
  rewrite alignRelationship_endpoints.
  unfold endpointList in Hdisjoint.
  destruct (endpoints m ts r) as [[s t]|]; [|done].
  destruct (endpoints m ts r') as [[s' t']|]; [|done].
  assert (s ≠ s' ∧ s ≠ t' ∧ t ≠ s' ∧ t ≠ t') as (Hss & Hst & Hts & Htt).
  { split_and!; intros ->.
    - apply (Hdisjoint s'); apply list_elem_of_here.
    - apply (Hdisjoint t'); [apply list_elem_of_here|].
      apply list_elem_of_further, list_elem_of_here.
    - apply (Hdisjoint s'); [|apply list_elem_of_here].
      apply list_elem_of_further, list_elem_of_here.
    - apply (Hdisjoint t'); apply list_elem_of_further, list_elem_of_here. }
  destruct (typeAt ts s') as [a'|]; [|done].
  destruct (typeAt ts t') as [b'|]; [|done].
  destruct s' as [si' sfi'], t' as [ti' tfi']. cbn [fst snd].
  destruct (JS.gt (getMySQLDataTypeSize a') (getMySQLDataTypeSize b'));
    [|destruct (JS.gt (getMySQLDataTypeSize b') (getMySQLDataTypeSize a'))];
    by rewrite ?typeAt_assignType_ne by done.
Qed.

End step_with_tableMap.

(** ** The whole alignment, run twice *)

Section lists.

Lemma forallb_Forall {A : Type} (f : A → bool) (l : list A) :
  forallb f l = true ↔ Forall (λ x, f x = true) l.
Proof.
  induction l as [|x l IH]; cbn [forallb].
  - split; [constructor|done].
  - rewrite andb_true_iff, Forall_cons, IH. done.
Qed.

Lemma pairwiseDisjoint_cons (l : list (nat * nat))
    (rest : list (list (nat * nat))) :
  pairwiseDisjoint (l :: rest) = true ↔
    Forall (λ l', ∀ ref, ref ∈ l → ref ∉ l') rest
    ∧ pairwiseDisjoint rest = true.
Proof.
  cbn [pairwiseDisjoint]. rewrite andb_true_iff, forallb_Forall.
  apply and_iff_compat_r, Forall_proper; [|done]. intros l'.
  rewrite forallb_Forall, Forall_forall.
  apply forall_proper. intros ref.
  rewrite negb_true_iff, bool_decide_eq_false. done.
Qed.

Lemma setTables_shape (ts ts' : list Table.t) (i : nat)
    (m : gmap string nat) :
  eraseTableTypes <$> ts' = eraseTableTypes <$> ts →
  setTables i ts' m = setTables i ts m.
Proof.
  revert ts' i m. induction ts as [|t ts IH]; intros ts' i m Hshape.
  - by apply fmap_nil_inv in Hshape as ->.
  - destruct ts' as [|t' ts']; [done|].
    apply cons_eq_inv in Hshape as [Ht Hrest]. cbn [setTables].
    by rewrite (shape_id _ _ Ht), (IH _ _ _ Hrest).
Qed.

End lists.

Section pass.

Variable m : gmap string nat.

Lemma foldl_balanced_frame (r : Relationship.t) (rs : list Relationship.t)
    (ts : list Table.t) :
  Forall (λ r', ∀ ref, ref ∈ endpointList m ts r →
                       ref ∉ endpointList m ts r') rs →
  balanced m ts r = true →
  balanced m (foldl (alignRelationship m) ts rs) r = true.
Proof.
  revert ts. induction rs as [|r' rs IH]; intros ts Hdisjoint Hbalanced;
    cbn [foldl]; [done|].
  apply Forall_cons in Hdisjoint as [Hr' Hrs].
  pose proof (alignRelationship_shape m ts r') as Hshape.
  apply IH.
  - eapply Forall_impl; [exact Hrs|]. intros r'' Hr''.
    by rewrite !(endpointList_shape m ts _ _ Hshape).
  - by apply balanced_frame.
Qed.

Lemma foldl_all_balanced (rs : list Relationship.t) (ts : list Table.t) :
  pairwiseDisjoint (endpointList m ts <$> rs) = true →
  Forall (λ r, balanced m (foldl (alignRelationship m) ts rs) r = true) rs.
Proof.
  revert ts. induction rs as [|r rs IH]; intros ts Hdisjoint; [constructor|].
  rewrite fmap_cons in Hdisjoint.
  apply pairwiseDisjoint_cons in Hdisjoint as [Hr Hrs].
  pose proof (alignRelationship_shape m ts r) as Hshape.
  cbn [foldl]. constructor.
  - apply foldl_balanced_frame; [|apply alignRelationship_balanced].
    apply Forall_fmap in Hr. eapply Forall_impl; [exact Hr|].
    intros r' Hr'. cbn in Hr'.
    by rewrite !(endpointList_shape m ts _ _ Hshape).
  - apply IH.
    erewrite list_fmap_ext; [exact Hrs|].
    intros ? r' _. by apply endpointList_shape.
Qed.

Lemma foldl_balanced_id (rs : list Relationship.t) (ts : list Table.t) :
  Forall (λ r, balanced m ts r = true) rs →
  foldl (alignRelationship m) ts rs = ts.
Proof.
  induction 1 as [|r rs Hr _ IH]; cbn [foldl]; [done|].
  by rewrite balanced_alignRelationship.
Qed.

End pass.

Section twice.

(** C3, as the claim states it, fails: on a chain of two relationships
    through one field, the second run widens the first field once more
    ([a] is [tinyint], then [smallint], then [bigint]). *)
Lemma second_run_changes_chainDiagram :
  alignForeignKeyDataTypes (alignForeignKeyDataTypes chainDiagram)
  ≠ alignForeignKeyDataTypes chainDiagram.
Proof. by vm_compute. Qed.

(** C3, amended.  On a Diagram in which no field is an end of two
    relationships, a second run of the Type Unifier changes nothing. *)
Theorem alignForeignKeyDataTypes_idempotent (d : Diagram.t) :
  noSharedEndpoint d = true →
  alignForeignKeyDataTypes (alignForeignKeyDataTypes d)
  = alignForeignKeyDataTypes d.
Proof.
  unfold noSharedEndpoint, alignForeignKeyDataTypes at 2 3.
  destruct (Diagram.tables d) as [ts|] eqn:Hts; [|by destruct d; cbn in *; subst].
  destruct (Diagram.relationships d) as [rs|] eqn:Hrs;
    [|by unfold alignForeignKeyDataTypes; rewrite Hts, Hrs].
  intros Hdisjoint.
  destruct ((length ts =? 0) || (length rs =? 0)) eqn:Hguard.
  { by unfold alignForeignKeyDataTypes; rewrite Hts, Hrs, Hguard. }
  unfold alignForeignKeyDataTypes. cbn [Diagram.tables Diagram.relationships].
  pose proof (foldl_alignRelationship_shape (setTables 0 ts ∅) rs ts) as Hshape.
  assert (length (foldl (alignRelationship (setTables 0 ts ∅)) ts rs)
          = length ts) as ->.
  { by rewrite <- (length_fmap eraseTableTypes), Hshape, length_fmap. }
  rewrite Hguard, (setTables_shape ts _ _ _ Hshape).
  by rewrite foldl_balanced_id by by apply foldl_all_balanced.
Qed.

(** The sample Diagram has two relationships on four fields; its first run
    widens two of them. *)
Lemma alignForeignKeyDataTypes_idempotent_witness :
  noSharedEndpoint pairsDiagram = true
  ∧ alignForeignKeyDataTypes pairsDiagram ≠ pairsDiagram
  ∧ alignForeignKeyDataTypes (alignForeignKeyDataTypes pairsDiagram)
    = alignForeignKeyDataTypes pairsDiagram.
Proof.
  split; [by vm_compute|]. split; [by vm_compute|].
  apply alignForeignKeyDataTypes_idempotent. by vm_compute.
Defined.

End twice.

(** ** Weights and the widening rule *)

Section weights.

(** The weights of the lookup table. *)
Lemma tableWeight_listed :
  tableWeight "tinyint" = 1%N ∧ tableWeight "smallint" = 2%N
  ∧ tableWeight "mediumint" = 3%N ∧ tableWeight "integer" = 4%N
  ∧ tableWeight "bigint" = 8%N ∧ tableWeight "float" = 4%N
  ∧ tableWeight "double" = 8%N ∧ tableWeight "decimal" = 16%N
  ∧ tableWeight "numeric" = 16%N ∧ tableWeight "BigInt" = 8%N
  ∧ tableWeight "varchar" = 0%N ∧ tableWeight "uuid" = 0%N.
Proof. repeat split; by vm_compute. Qed.

(** For a type whose lower-case name is no member that an object inherits,
    [getMySQLDataTypeSize] is the weight of the lookup table. *)
Lemma getMySQLDataTypeSize_tableWeight (type : string) :
  JS.objectPrototype (JS.toLowerCase type) = None →
  getMySQLDataTypeSize type = JS.Number (tableWeight type).
Proof.
  intros Hown. unfold getMySQLDataTypeSize, JS.getProperty, tableWeight.
  destruct (dataTypeSizes !! JS.toLowerCase type) as [n|]; cbn.
  - destruct (n =? 0)%N eqn:Hn; [|done]. by apply N.eqb_eq in Hn as ->.
  - by rewrite Hown.
Qed.

(** The widening rule, for two types that are no inherited member names:
    the wider type overwrites the narrower one, every other field keeps its
    type, and equal weights change nothing. *)
Lemma alignRelationship_widens (m : gmap string nat) (ts : list Table.t)
    (r : Relationship.t) (source target : nat * nat) (a b : string) :
  endpoints m ts r = Some (source, target) →
  typeAt ts source = Some a → typeAt ts target = Some b →
  JS.objectPrototype (JS.toLowerCase a) = None →
  JS.objectPrototype (JS.toLowerCase b) = None →
  ((tableWeight b < tableWeight a)%N →
     typeAt (alignRelationship m ts r) target = Some a
     ∧ ∀ ref, ref ≠ target →
              typeAt (alignRelationship m ts r) ref = typeAt ts ref)
  ∧ ((tableWeight a < tableWeight b)%N →
     typeAt (alignRelationship m ts r) source = Some b
     ∧ ∀ ref, ref ≠ source →
              typeAt (alignRelationship m ts r) ref = typeAt ts ref)
  ∧ (tableWeight a = tableWeight b → alignRelationship m ts r = ts).
Proof.
  intros Hends Ha Hb Hna Hnb.
  rewrite alignRelationship_endpoints, Hends, Ha, Hb.
  rewrite !getMySQLDataTypeSize_tableWeight by done. cbn [JS.gt].
  destruct source as [si sfi], target as [ti tfi]. cbn [fst snd].
  split_and!.
  - intros Hlt. rewrite (proj2 (N.ltb_lt _ _) Hlt). split.
    + apply typeAt_assignType_eq. by rewrite Hb.
    + intros ref Href. by apply typeAt_assignType_ne.
  - intros Hlt. rewrite (proj2 (N.ltb_ge _ _)) by lia.
    rewrite (proj2 (N.ltb_lt _ _) Hlt). split.
    + apply typeAt_assignType_eq. by rewrite Ha.
    + intros ref Href. by apply typeAt_assignType_ne.
  - intros ->. by rewrite N.ltb_irrefl.
Qed.

(** C4 fails on the code at a type named like a member that every object
    literal inherits.  The lookup table gives [constructor] the weight [0]
    and [bigint] the weight [8], so the claim has the [constructor] column
    retyped to [bigint]; [getMySQLDataTypeSize "constructor"] is the
    inherited function [Object], no number, both comparisons are false and
    the Diagram stays as it is. *)
Lemma constructor_type_not_widened :
  tableWeight "bigint" = 8%N ∧ tableWeight "constructor" = 0%N
  ∧ getMySQLDataTypeSize "constructor" = JS.BuiltinFunction "Object"
  ∧ JS.gt (getMySQLDataTypeSize "bigint") (getMySQLDataTypeSize "constructor")
    = false
  ∧ alignForeignKeyDataTypes constructorDiagram = constructorDiagram.
Proof. repeat split; by vm_compute. Qed.

End weights.

(** ** Views *)

Section views.








End views.

(** * Further properties *)

(** ** The values of [getMySQLDataTypeSize] *)

Section sizes.

Lemma lowerAscii_not_upper (c : Ascii.ascii) : isUpper (JS.lowerAscii c) = false.
Proof. by destruct c as [[] [] [] [] [] [] [] []]. Qed.

Lemma toLowerCase_no_upper (s : string) : hasUpper (JS.toLowerCase s) = false.
Proof.
  induction s as [|c s IH]; [done|]. cbn [JS.toLowerCase hasUpper].
  by rewrite lowerAscii_not_upper, IH.
Qed.

Lemma toLowerCase_ne (s key : string) :
  hasUpper key = true → JS.toLowerCase s ≠ key.
Proof.
  intros Hkey Heq. by rewrite <- Heq, toLowerCase_no_upper in Hkey.
Qed.

(** After [toLowerCase], the only inherited members that a lookup can reach
    are [constructor] and [__proto__]. *)
Lemma objectPrototype_toLowerCase (s : string) :
  JS.objectPrototype (JS.toLowerCase s) =
    if decide (JS.toLowerCase s = "constructor")
    then Some (JS.BuiltinFunction "Object")
    else if decide (JS.toLowerCase s = "__proto__") then Some JS.ObjectPrototype
    else None.
Proof.
  unfold JS.objectPrototype. repeat case_decide; try done.
  exfalso.
  repeat match goal with
    | H : _ ∈ _ :: _ |- _ => apply elem_of_cons in H as [H|H]
    | H : _ ∈ [] |- _ => by apply elem_of_nil in H
    | H : JS.toLowerCase _ = _ |- _ => by apply toLowerCase_ne in H
    end.
Qed.

Lemma dataTypeSizes_values (key : string) (n : N) :
  dataTypeSizes !! key = Some n → n ∈ [1; 2; 3; 4; 8; 16]%N.
Proof.
  unfold dataTypeSizes. intros Hn%elem_of_list_to_map_2.
  repeat (apply elem_of_cons in Hn as [[= -> ->]|Hn];
          [by repeat first [apply list_elem_of_here
                           |apply list_elem_of_further]|]).
  by apply elem_of_nil in Hn.
Qed.

(** The size and the weight of the lookup table agree on numbers; a size
    that is no number belongs to a type of weight [0]. *)
Lemma getMySQLDataTypeSize_weight (type : string) :
  match getMySQLDataTypeSize type with
  | JS.Number n => n = tableWeight type
  | _ => tableWeight type = 0%N
  end.
Proof.
  unfold getMySQLDataTypeSize, JS.getProperty, tableWeight.
  destruct (dataTypeSizes !! JS.toLowerCase type) as [n|]; cbn.
  - destruct (n =? 0)%N eqn:Hn; [|done]. by apply N.eqb_eq in Hn as ->.
  - unfold JS.objectPrototype. by repeat case_decide.
Qed.

(** X2.  [getMySQLDataTypeSize] gives a number, one of 0, 1, 2, 3, 4, 8 and
    16, for every type but two: a type whose lower-case form is
    [constructor] gives the inherited function [Object], one whose
    lower-case form is [__proto__] gives the prototype object. *)
Theorem getMySQLDataTypeSize_values (type : string) :
  getMySQLDataTypeSize type =
    (if decide (JS.toLowerCase type = "constructor")
     then JS.BuiltinFunction "Object"
     else if decide (JS.toLowerCase type = "__proto__") then JS.ObjectPrototype
     else JS.Number (tableWeight type))
  ∧ tableWeight type ∈ [0; 1; 2; 3; 4; 8; 16]%N.
Proof.
  split.
  - unfold getMySQLDataTypeSize, JS.getProperty, tableWeight.
    rewrite objectPrototype_toLowerCase.
    destruct (decide (JS.toLowerCase type = "constructor")) as [->|_];
      [done|].
    destruct (decide (JS.toLowerCase type = "__proto__")) as [->|_]; [done|].
    destruct (dataTypeSizes !! JS.toLowerCase type) as [n|]; cbn; [|done].
    destruct (n =? 0)%N eqn:Hn; [|done]. by apply N.eqb_eq in Hn as ->.
  - unfold tableWeight.
    destruct (dataTypeSizes !! JS.toLowerCase type) as [n|] eqn:Hn; cbn.
    + apply list_elem_of_further. by eapply dataTypeSizes_values.
    + apply list_elem_of_here.
Qed.

(** A size can only exceed a size of a weight that is not larger. *)
Lemma gt_tableWeight (a b : string) :
  JS.gt (getMySQLDataTypeSize a) (getMySQLDataTypeSize b) = true →
  (tableWeight b ≤ tableWeight a)%N.
Proof.
  pose proof (getMySQLDataTypeSize_weight a) as Ha.
  pose proof (getMySQLDataTypeSize_weight b) as Hb.
  destruct (getMySQLDataTypeSize a), (getMySQLDataTypeSize b);
    cbn [JS.gt]; try done; try (intros _; lia).
  intros Hlt%N.ltb_lt. lia.
Qed.

End sizes.

(** ** The widening rule at work *)

Section widening.

(** X1.  The widening rule of a step, for two ends that resolve to fields
    whose types are no inherited member names: when the source has the
    larger weight the target takes the type of the source, when the target
    has the larger weight the source takes the type of the target, every
    other field keeps its type, and with equal weights nothing changes. *)
Theorem widening_rule (m : gmap string nat) (ts : list Table.t)
    (r : Relationship.t) (source target : nat * nat) (a b : string) :
  endpoints m ts r = Some (source, target) →
  typeAt ts source = Some a → typeAt ts target = Some b →
  JS.objectPrototype (JS.toLowerCase a) = None →
  JS.objectPrototype (JS.toLowerCase b) = None →
  ((tableWeight b < tableWeight a)%N →
     typeAt (alignRelationship m ts r) target = Some a
     ∧ ∀ ref, ref ≠ target →
              typeAt (alignRelationship m ts r) ref = typeAt ts ref)
  ∧ ((tableWeight a < tableWeight b)%N →
     typeAt (alignRelationship m ts r) source = Some b
     ∧ ∀ ref, ref ≠ source →
              typeAt (alignRelationship m ts r) ref = typeAt ts ref)
  ∧ (tableWeight a = tableWeight b → alignRelationship m ts r = ts).
Proof. apply alignRelationship_widens. Qed.

(** The sample relationship from [users.id] ([integer], weight 4) to
    [orders.user_id] ([smallint], weight 2): the target becomes [integer]. *)
Lemma widening_rule_witness :
  endpoints (setTables 0 [usersTable; ordersTable] ∅)
            [usersTable; ordersTable] fkOrdersUser = Some ((0, 0), (1, 1))
  ∧ (tableWeight "smallint" < tableWeight "integer")%N
  ∧ typeAt (alignRelationship (setTables 0 [usersTable; ordersTable] ∅)
              [usersTable; ordersTable] fkOrdersUser) (1, 1)
    = Some "integer".
Proof.
  split; [by vm_compute|]. split; [by vm_compute|].
  apply (widening_rule (setTables 0 [usersTable; ordersTable] ∅)
           [usersTable; ordersTable] fkOrdersUser (0, 0) (1, 1)
           "integer" "smallint"); by vm_compute.
Defined.

(** What a step does to the type behind a reference: nothing, or it writes
    the type of another field, whose size exceeds the size of the type it
    replaces. *)
Lemma alignRelationship_typeAt (m : gmap string nat) (ts : list Table.t)
    (r : Relationship.t) (ref : nat * nat) :
  typeAt (alignRelationship m ts r) ref = typeAt ts ref
  ∨ ∃ ref' a b,
      typeAt ts ref = Some b ∧ typeAt ts ref' = Some a
      ∧ typeAt (alignRelationship m ts r) ref = Some a
      ∧ JS.gt (getMySQLDataTypeSize a) (getMySQLDataTypeSize b) = true.
Proof.
  rewrite alignRelationship_endpoints.
  destruct (endpoints m ts r) as [[[si sfi] [ti tfi]]|]; [|by left].
  destruct (typeAt ts (si, sfi)) as [a|] eqn:Ha; [|by left].
  destruct (typeAt ts (ti, tfi)) as [b|] eqn:Hb; [|by left].
  cbn [fst snd].
  destruct (JS.gt (getMySQLDataTypeSize a) (getMySQLDataTypeSize b)) eqn:Hab;
    [|destruct (JS.gt (getMySQLDataTypeSize b) (getMySQLDataTypeSize a))
        eqn:Hba]; [| |by left].
  - destruct (decide (ref = (ti, tfi))) as [->|Hne].
    + right. exists (si, sfi), a, b. split_and!; try done.
      apply typeAt_assignType_eq. by rewrite Hb.
    + left. by apply typeAt_assignType_ne.
  - destruct (decide (ref = (si, sfi))) as [->|Hne].
    + right. exists (ti, tfi), b, a. split_and!; try done.
      apply typeAt_assignType_eq. by rewrite Ha.
    + left. by apply typeAt_assignType_ne.
Qed.

Lemma foldl_typeAt_widens (m : gmap string nat) (rs : list Relationship.t)
    (ts : list Table.t) (ref : nat * nat) (a : string) :
  typeAt ts ref = Some a →
  ∃ b, typeAt (foldl (alignRelationship m) ts rs) ref = Some b
       ∧ (tableWeight a ≤ tableWeight b)%N.
Proof.
  revert ts a. induction rs as [|r rs IH]; intros ts a Ha; cbn [foldl].
  - exists a. split; [done|lia].
  - destruct (alignRelationship_typeAt m ts r ref)
      as [Hsame|(ref' & a' & b' & Hb' & _ & Ha' & Hgt)].
    + apply IH. by rewrite Hsame.
    + rewrite Ha in Hb'. injection Hb' as <-.
      destruct (IH _ _ Ha') as (b & Hb & Hle). exists b. split; [done|].
      apply gt_tableWeight in Hgt. lia.
Qed.

Lemma foldl_typeAt_origin (m : gmap string nat) (rs : list Relationship.t)
    (ts : list Table.t) (ref : nat * nat) (b : string) :
  typeAt (foldl (alignRelationship m) ts rs) ref = Some b →
  ∃ ref', typeAt ts ref' = Some b.
Proof.
  revert ts. induction rs as [|r rs IH]; intros ts Hb; cbn [foldl] in Hb.
  - by exists ref.
  - destruct (IH _ Hb) as (ref1 & Href1).
    destruct (alignRelationship_typeAt m ts r ref1)
      as [Hsame|(ref' & a' & b' & _ & Ha' & Hnew & _)].
    + exists ref1. by rewrite <- Hsame.
    + exists ref'. rewrite Hnew in Href1. by injection Href1 as <-.
Qed.

(** The tables of the aligned Diagram, when the guard lets the run pass. *)
Lemma alignForeignKeyDataTypes_run (d : Diagram.t) :
  alignForeignKeyDataTypes d = d
  ∨ ∃ ts rs,
      Diagram.tables d = Some ts ∧ Diagram.relationships d = Some rs
      ∧ alignForeignKeyDataTypes d =
          Diagram.mk
            (Some (foldl (alignRelationship (setTables 0 ts ∅)) ts rs))
            (Some rs).
Proof.
  unfold alignForeignKeyDataTypes.
  destruct (Diagram.tables d) as [ts|]; [|by left].
  destruct (Diagram.relationships d) as [rs|]; [|by left].
  case_match; [by left|]. right. by exists ts, rs.
Qed.

(** X4.  The alignment never narrows a column: after
    [alignForeignKeyDataTypes], every field has a type whose weight in the
    lookup table is at least the weight of the type it had before. *)
Theorem alignForeignKeyDataTypes_never_narrows (d : Diagram.t)
    (ref : nat * nat) (a : string) :
  typeIn d ref = Some a →
  ∃ b, typeIn (alignForeignKeyDataTypes d) ref = Some b
       ∧ (tableWeight a ≤ tableWeight b)%N.
Proof.
  intros Ha.
  destruct (alignForeignKeyDataTypes_run d) as [->|(ts & rs & Hts & _ & ->)].
  - exists a. split; [done|lia].
  - unfold typeIn in *. rewrite Hts in Ha. cbn in *.
    by apply foldl_typeAt_widens.
Qed.

(** [orders.user_id] of the sample: [smallint] (2) before, [integer] (4)
    after. *)
Lemma alignForeignKeyDataTypes_never_narrows_witness :
  typeIn shopDiagram (1, 1) = Some "smallint"
  ∧ ∃ b, typeIn (alignForeignKeyDataTypes shopDiagram) (1, 1) = Some b
         ∧ (tableWeight "smallint" ≤ tableWeight b)%N.
Proof.
  split; [reflexivity|].
  apply (alignForeignKeyDataTypes_never_narrows shopDiagram (1, 1) "smallint").
  reflexivity.
Defined.

(** X5.  The alignment invents no type: every type of a field after
    [alignForeignKeyDataTypes] is the type that some field of the Diagram
    had before. *)
Theorem alignForeignKeyDataTypes_types_from_diagram (d : Diagram.t)
    (ref : nat * nat) (b : string) :
  typeIn (alignForeignKeyDataTypes d) ref = Some b →
  ∃ ref', typeIn d ref' = Some b.
Proof.
  destruct (alignForeignKeyDataTypes_run d) as [->|(ts & rs & Hts & _ & ->)].
  - intros Hb. by exists ref.
  - unfold typeIn. rewrite Hts. cbn. apply foldl_typeAt_origin.
Qed.

(** The [integer] of [orders.user_id] after the run is the type of
    [users.id]. *)
Lemma alignForeignKeyDataTypes_types_from_diagram_witness :
  typeIn (alignForeignKeyDataTypes shopDiagram) (1, 1) = Some "integer"
  ∧ ∃ ref', typeIn shopDiagram ref' = Some "integer".
Proof.
  split; [by vm_compute|].
  apply (alignForeignKeyDataTypes_types_from_diagram shopDiagram (1, 1)).
  by vm_compute.
Defined.

End widening.

(** ** Runs that change nothing, and what a run reaches *)

Section runs.

(** X10.  A Diagram in which every relationship is balanced (neither end has
    the larger size) is a fixed point: [alignForeignKeyDataTypes] and
    [exportBaseSQL] leave it as it is. *)
Theorem balanced_no_mutation (d : Diagram.t) (ts : list Table.t)
    (rs : list Relationship.t) :
  Diagram.tables d = Some ts → Diagram.relationships d = Some rs →
  Forall (λ r, balanced (setTables 0 ts ∅) ts r = true) rs →
  alignForeignKeyDataTypes d = d ∧ (exportBaseSQL d).1 = d.
Proof.
  intros Hts Hrs Hbalanced.
  assert (alignForeignKeyDataTypes d = d) as Halign.
  { unfold alignForeignKeyDataTypes. rewrite Hts, Hrs.
    case_match; [done|]. rewrite foldl_balanced_id by done.
    destruct d. cbn in *. by subst. }
  split; [done|]. unfold exportBaseSQL. rewrite Hts.
  case_match; cbn; by rewrite ?Halign.
Qed.

(** The Diagram that the first run makes of the sample with two separate
    relationships. *)
Lemma balanced_no_mutation_witness :
  (exportBaseSQL (alignForeignKeyDataTypes pairsDiagram)).1
  = alignForeignKeyDataTypes pairsDiagram.
Proof.
  eapply (balanced_no_mutation (alignForeignKeyDataTypes pairsDiagram)).
  - reflexivity.
  - reflexivity.
  - apply (bool_decide_unpack _). by vm_compute.
Defined.

(** After a run on a Diagram in which no field is an end of two
    relationships, neither end of a relationship has the larger size. *)
Lemma alignForeignKeyDataTypes_settles_sizes (d : Diagram.t)
    (ts : list Table.t) (rs : list Relationship.t) (r : Relationship.t)
    (source target : nat * nat) (a b : string) :
  noSharedEndpoint d = true →
  Diagram.tables d = Some ts → Diagram.relationships d = Some rs → r ∈ rs →
  endpoints (setTables 0 ts ∅) ts r = Some (source, target) →
  typeIn (alignForeignKeyDataTypes d) source = Some a →
  typeIn (alignForeignKeyDataTypes d) target = Some b →
  JS.gt (getMySQLDataTypeSize a) (getMySQLDataTypeSize b) = false
  ∧ JS.gt (getMySQLDataTypeSize b) (getMySQLDataTypeSize a) = false.
Proof.
  intros Hdisjoint Hts Hrs Hr Hends Ha Hb.
  unfold noSharedEndpoint in Hdisjoint. rewrite Hts, Hrs in Hdisjoint.
  unfold typeIn, alignForeignKeyDataTypes in Ha, Hb.
  rewrite Hts, Hrs in Ha, Hb.
  destruct ((length ts =? 0) || (length rs =? 0)) eqn:Hguard.
  { destruct ts as [|t ts]; [|by destruct rs; [apply elem_of_nil in Hr|]].
    unfold endpoints in Hends. by repeat case_match. }
  cbn in Ha, Hb.
  pose proof (foldl_all_balanced _ rs ts Hdisjoint) as Hall.
  rewrite Forall_forall in Hall. specialize (Hall r Hr).
  unfold balanced in Hall.
  rewrite (endpoints_shape _ ts), Hends, Ha, Hb in Hall
    by apply foldl_alignRelationship_shape.
  apply andb_true_iff in Hall as [Hab Hba].
  by apply negb_true_iff in Hab, Hba.
Qed.

(** X7.  When no field is an end of two relationships, one run settles every
    relationship: afterwards neither end has the larger size, and two ends
    whose types are no inherited member names have the same weight. *)
Theorem alignForeignKeyDataTypes_settles (d : Diagram.t) (ts : list Table.t)
    (rs : list Relationship.t) (r : Relationship.t)
    (source target : nat * nat) (a b : string) :
  noSharedEndpoint d = true →
  Diagram.tables d = Some ts → Diagram.relationships d = Some rs → r ∈ rs →
  endpoints (setTables 0 ts ∅) ts r = Some (source, target) →
  typeIn (alignForeignKeyDataTypes d) source = Some a →
  typeIn (alignForeignKeyDataTypes d) target = Some b →
  JS.gt (getMySQLDataTypeSize a) (getMySQLDataTypeSize b) = false
  ∧ JS.gt (getMySQLDataTypeSize b) (getMySQLDataTypeSize a) = false
  ∧ (JS.objectPrototype (JS.toLowerCase a) = None →
     JS.objectPrototype (JS.toLowerCase b) = None →
     tableWeight a = tableWeight b).
Proof.
  intros Hdisjoint Hts Hrs Hr Hends Ha Hb.
  destruct (alignForeignKeyDataTypes_settles_sizes d ts rs r source target
              a b) as [Hab Hba]; try done.
  split_and!; [done..|]. intros Hna Hnb.
  rewrite !getMySQLDataTypeSize_tableWeight in Hab, Hba by done.
  cbn [JS.gt] in Hab, Hba. apply N.ltb_ge in Hab, Hba. lia.
Qed.

(** The first relationship of the sample with two separate relationships:
    [a] and [b] end as [smallint] both. *)
Lemma alignForeignKeyDataTypes_settles_witness :
  typeIn (alignForeignKeyDataTypes pairsDiagram) (0, 0) = Some "smallint"
  ∧ typeIn (alignForeignKeyDataTypes pairsDiagram) (0, 1) = Some "smallint"
  ∧ JS.gt (getMySQLDataTypeSize "smallint") (getMySQLDataTypeSize "smallint")
    = false.
Proof.
  split; [by vm_compute|]. split; [by vm_compute|].
  eapply (alignForeignKeyDataTypes_settles pairsDiagram [pairsTable] _
            (Relationship.mk "r1" "t" "a" "t" "b") (0, 0) (0, 1)).
  - by vm_compute.
  - reflexivity.
  - reflexivity.
  - apply list_elem_of_here.
  - by vm_compute.
  - by vm_compute.
  - by vm_compute.
Defined.

End runs.

(** ** The format of the script *)

Section format.

Lemma exportField_columnLine (n i : nat) (f : Field.t) :
  exportField n "" f i = columnLine f +:+ columnSeparator n i.
Proof.
  rewrite exportField_clauses. unfold columnLine.
  by rewrite ?append_assoc.
Qed.

(** The columns of a table: joined by a comma and a line feed, none after
    the last one. *)
Lemma forEachFrom_columns (n i : nat) (fields : list Field.t) :
  n = i + length fields →
  forEachFrom (exportField n) i fields ""
  = JS.join ("," +:+ LF) (columnLine <$> fields).
Proof.
  revert i. induction fields as [|f fields IH]; intros i Hn; [done|].
  cbn [forEachFrom]. rewrite forEachFrom_appends by apply exportField_appends.
  rewrite exportField_columnLine, IH by (cbn [length] in Hn; lia).
  unfold columnSeparator. destruct fields as [|g fields].
  - rewrite (proj2 (Z.ltb_ge _ _)) by (cbn [length] in Hn; lia).
    cbn. by rewrite !append_nil_r.
  - rewrite (proj2 (Z.ltb_lt _ _)) by (cbn [length] in Hn; lia).
    rewrite fmap_cons. cbn [JS.join fmap list_fmap].
    by rewrite !append_assoc.
Qed.

(** X3.  The block of a table: the [CREATE TABLE] line, the column lines
    joined by a comma and a line feed (no comma after the last column),
    the closing [);] with an empty line, one line for each index that has a
    named field, and a line feed. *)
Theorem exportTable_format (s : string) (t : Table.t) :
  exportTable s t =
    s +:+ "CREATE TABLE " +:+ Table.name t +:+ " (" +:+ LF
      +:+ JS.join ("," +:+ LF) (columnLine <$> Table.fields t)
      +:+ LF +:+ ");" +:+ LF +:+ LF
      +:+ flat (exportIndex t "" <$> Table.indexes t)
      +:+ LF.
Proof.
  rewrite exportTable_block. unfold forEach.
  rewrite forEachFrom_columns by done. by rewrite !append_assoc.
Qed.

(** X8.  A relationship both of whose ends resolve against the non-view
    tables adds exactly one line, [ALTER TABLE <source table> ADD CONSTRAINT
    <name> FOREIGN KEY (<source field>) REFERENCES <target table>
    (<target field>);], and the script holds that line. *)
Theorem resolved_relationship_emitted (d : Diagram.t) (r : Relationship.t)
    (sourceTable targetTable : Table.t) (sourceField targetField : Field.t) :
  r ∈ relationshipsOf d →
  resolveEndpoint (nonViewTables d) (Relationship.sourceTableId r)
                  (Relationship.sourceFieldId r)
  = Some (sourceTable, sourceField) →
  resolveEndpoint (nonViewTables d) (Relationship.targetTableId r)
                  (Relationship.targetFieldId r)
  = Some (targetTable, targetField) →
  exportRelationship (nonViewTables d) "" r =
    "ALTER TABLE " +:+ Table.name sourceTable
      +:+ " ADD CONSTRAINT " +:+ Relationship.name r
      +:+ " FOREIGN KEY (" +:+ Field.name sourceField
      +:+ ") REFERENCES " +:+ Table.name targetTable
      +:+ " (" +:+ Field.name targetField +:+ ");" +:+ LF
  ∧ ∃ before after,
      (exportBaseSQL d).2 =
        before +:+ exportRelationship (nonViewTables d) "" r +:+ after.
Proof.
  intros Hr Hsource Htarget. split.
  - by rewrite exportRelationship_resolved, Hsource, Htarget.
  - apply list_elem_of_split in Hr as (rs1 & rs2 & Hsplit).
    rewrite exportBaseSQL_script, Hsplit, fmap_app, fmap_cons, flat_app,
      flat_cons.
    exists (flat (exportTable "" <$> nonViewTables d)
            +:+ flat (exportRelationship (nonViewTables d) "" <$> rs1)),
      (flat (exportRelationship (nonViewTables d) "" <$> rs2)).
    by rewrite !append_assoc.
Qed.

(** The foreign key of the sample. *)
Lemma resolved_relationship_emitted_witness :
  exportRelationship (nonViewTables shopDiagram) "" fkOrdersUser =
    "ALTER TABLE users ADD CONSTRAINT fk_orders_user FOREIGN KEY (id) REFERENCES orders (user_id);"
    +:+ LF.
Proof.
  refine (proj1 (resolved_relationship_emitted shopDiagram fkOrdersUser
                   usersTable
                   (setFields
                      [ Field.mk "o_id" "id" "integer" None None None true
                                 None true;
                        Field.mk "o_user" "user_id" "integer" None None None
                                 false None false ]
                      ordersTable)
                   (Field.mk "u_id" "id" "integer" None None None true None
                             true)
                   (Field.mk "o_user" "user_id" "integer" None None None
                             false None false)
                   _ _ _)).
  - apply list_elem_of_here.
  - by vm_compute.
  - by vm_compute.
Defined.

Lemma nonViewTables_nil (d : Diagram.t) :
  nonViewTables d = [] ↔
    ∀ ts, Diagram.tables d = Some ts →
          Forall (λ t, Table.isView t = true) ts.
Proof.
  split.
  - intros Hnil ts Hts. apply Forall_forall.
    intros t [i Hi]%list_elem_of_lookup_1.
    destruct (Table.isView t) eqn:Hview; [done|exfalso].
    unfold nonViewTables in Hnil.
    destruct (alignForeignKeyDataTypes_tables d ts Hts)
      as (ts' & Hts' & Hshape).
    rewrite Hts' in Hnil. symmetry in Hshape.
    destruct (shape_lookup _ _ _ _ Hshape Hi) as (t' & Ht' & Htt').
    apply shape_isView in Htt'.
    assert (t' ∈ filter (λ t, Table.isView t = false) ts') as Hin.
    { apply list_elem_of_filter. split; [congruence|].
      by eapply list_elem_of_lookup_2. }
    rewrite Hnil in Hin. by apply elem_of_nil in Hin.
  - intros Hviews. apply elem_of_nil_inv.
    intros t' (Hview & ts & t & Hts & Ht & Htt')%nonViewTables_elem.
    specialize (Hviews ts Hts). rewrite Forall_forall in Hviews.
    apply shape_isView in Htt'. rewrite (Hviews t Ht) in Htt'. congruence.
Qed.

(** X11.  The script is empty exactly when the Diagram has no non-view
    table: tables absent, no table, or views only. *)
Theorem exportBaseSQL_empty_iff (d : Diagram.t) :
  (exportBaseSQL d).2 = "" ↔
    ∀ ts, Diagram.tables d = Some ts →
          Forall (λ t, Table.isView t = true) ts.
Proof.
  rewrite <- nonViewTables_nil, exportBaseSQL_script. split.
  - destruct (nonViewTables d) as [|t nv]; [done|].
    rewrite fmap_cons, flat_cons, exportTable_block.
    cbn [String.append]. rewrite !append_assoc, append_cons. discriminate.
  - intros ->. cbn [fmap list_fmap flat foldr String.append].
    apply flat_nil_pieces, Forall_fmap, Forall_forall.
    intros r _. apply exportRelationship_nil.
Qed.

End format.

(** ** The table map *)

Section tablemap.

Lemma setTables_None (ts : list Table.t) (i : nat) (m : gmap string nat)
    (id : string) :
  setTables i ts m !! id = None ↔
    m !! id = None ∧ ∀ t, t ∈ ts → Table.id t ≠ id.
Proof.
  revert i m. induction ts as [|t0 ts IH]; intros i m; cbn [setTables].
  - split; [intros ?; split; [done|]|by intros [? _]].
    by intros t ?%elem_of_nil.
  - rewrite IH, lookup_insert_None. split.
    + intros [[Hm Ht0] Hts]. split; [done|].
      intros t [->|Ht]%elem_of_cons; auto.
    + intros [Hm Hts]. split_and!; [done| |].
      * apply Hts, list_elem_of_here.
      * intros t Ht. by apply Hts, list_elem_of_further.
Qed.

Lemma setTables_Some (ts : list Table.t) (i : nat) (m : gmap string nat)
    (id : string) (k : nat) :
  setTables i ts m !! id = Some k ↔
    (∃ j t, k = i + j ∧ ts !! j = Some t ∧ Table.id t = id
            ∧ ∀ j' t', j < j' → ts !! j' = Some t' → Table.id t' ≠ id)
    ∨ (m !! id = Some k ∧ ∀ t, t ∈ ts → Table.id t ≠ id).
Proof.
  revert i m. induction ts as [|t0 ts IH]; intros i m; cbn [setTables].
  - split.
    + intros Hm. right. split; [done|]. by intros t ?%elem_of_nil.
    + intros [(j & t & _ & Hj & _)|[Hm _]]; [by destruct j|done].
  - rewrite IH, lookup_insert_Some. split.
    + intros [(j & t & -> & Hj & Hid & Hlast)
             |[[[Hid0 <-]|[Hid0 Hm]] Hts]].
      * left. exists (S j), t. split_and!; [lia|done..|].
        intros [|j'] t' Hlt Hj'; [lia|]. apply (Hlast j'); [lia|done].
      * left. exists 0, t0. split_and!; [lia|done..|].
        intros [|j'] t' Hlt Hj'; [lia|].
        by eapply Hts, list_elem_of_lookup_2.
      * right. split; [done|]. intros t [->|Ht]%elem_of_cons; auto.
    + intros [([|j] & t & -> & Hj & Hid & Hlast)|[Hm Hts]].
      * right. injection Hj as <-. split.
        -- left. split; [done|lia].
        -- intros t' [j' Hj']%list_elem_of_lookup_1.
           apply (Hlast (S j')); [lia|done].
      * left. exists j, t. split_and!; [lia|done..|].
        intros j' t' Hlt Hj'. apply (Hlast (S j')); [lia|done].
      * right. split.
        -- right. split; [|done]. apply Hts, list_elem_of_here.
        -- intros t Ht. by apply Hts, list_elem_of_further.
Qed.

(** X6.  [tableMap] maps an id to the last table of [diagram.tables] that
    carries it, and to nothing when no table does. *)
Theorem tableMap_last_wins (ts : list Table.t) (id : string) :
  (∀ k, setTables 0 ts ∅ !! id = Some k ↔
        ∃ t, ts !! k = Some t ∧ Table.id t = id
             ∧ ∀ j t', k < j → ts !! j = Some t' → Table.id t' ≠ id)
  ∧ (setTables 0 ts ∅ !! id = None ↔ ∀ t, t ∈ ts → Table.id t ≠ id).
Proof.
  split.
  - intros k. rewrite setTables_Some. split.
    + intros [(j & t & -> & Hj & Hid & Hlast)|[Hempty _]]; [|done].
      by exists t.
    + intros (t & Hk & Hid & Hlast). left. by exists k, t.
  - rewrite setTables_None. split; [by intros [_ ?]|by intros ?].
Qed.

(** With unique table ids, the table that the emitter finds for an id is
    the aligned table at the position that [tableMap] holds for the id. *)
Lemma findTable_tableMap (d : Diagram.t) (ts : list Table.t)
    (id : string) (t' : Table.t) :
  NoDup (Table.id <$> ts) → Diagram.tables d = Some ts →
  findTable id (nonViewTables d) = Some t' →
  ∃ i, setTables 0 ts ∅ !! id = Some i
       ∧ (Diagram.tables (alignForeignKeyDataTypes d) ≫= λ ts', ts' !! i)
         = Some t'.
Proof.
  intros Hunique Hts Hfind. unfold findTable in Hfind.
  destruct (list_find _ (nonViewTables d)) as [[k t1]|] eqn:Hk; [|done].
  injection Hfind as ->.
  apply list_find_Some in Hk as (Hk & Hid & _).
  apply list_elem_of_lookup_2 in Hk. unfold nonViewTables in Hk.
  destruct (alignForeignKeyDataTypes_tables d ts Hts) as (ts' & Hts' & Hshape).
  rewrite Hts' in Hk.
  apply list_elem_of_filter in Hk as [_ [i Hi]%list_elem_of_lookup_1].
  destruct (shape_lookup _ _ _ _ Hshape Hi) as (t & Ht & Htt').
  apply shape_id in Htt'. exists i. rewrite Hts'. split; [|done].
  apply setTables_Some. left. exists i, t.
  split_and!; [done|done|congruence|].
  intros j t'' Hlt Hj Hid''.
  assert (i = j); [|lia].
  apply (NoDup_lookup _ i j id Hunique); rewrite list_lookup_fmap.
  - rewrite Ht. cbn. congruence.
  - rewrite Hj. cbn. congruence.
Qed.

(** X12.  With unique table ids, the emitter and the alignment resolve an id
    to the same table: the table that [exportBaseSQL] finds among the
    non-view tables is the table, as aligned, at the position that
    [tableMap] holds for the id. *)
Theorem emitter_and_alignment_agree (d : Diagram.t) (ts : list Table.t)
    (id : string) (t' : Table.t) :
  NoDup (Table.id <$> ts) → Diagram.tables d = Some ts →
  findTable id (nonViewTables d) = Some t' →
  ∃ i, setTables 0 ts ∅ !! id = Some i
       ∧ (Diagram.tables (alignForeignKeyDataTypes d) ≫= λ ts', ts' !! i)
         = Some t'.
Proof. apply findTable_tableMap. Qed.

(** The sample has unique ids; [t_orders] is at position 1, and the emitter
    finds it with [user_id] already widened. *)
Lemma emitter_and_alignment_agree_witness :
  NoDup (Table.id <$> [usersTable; ordersTable])
  ∧ ∃ i, setTables 0 [usersTable; ordersTable] ∅ !! "t_orders" = Some i
         ∧ (Diagram.tables (alignForeignKeyDataTypes shopDiagram)
              ≫= λ ts', ts' !! i)
           = Some (setFields
                     [ Field.mk "o_id" "id" "integer" None None None true
                                None true;
                       Field.mk "o_user" "user_id" "integer" None None None
                                false None false ]
                     ordersTable).
Proof.
  assert (NoDup (Table.id <$> [usersTable; ordersTable])) as Hunique.
  { apply (bool_decide_unpack _). by vm_compute. }
  split; [exact Hunique|].
  apply (emitter_and_alignment_agree shopDiagram [usersTable; ordersTable]
           "t_orders"); [exact Hunique|reflexivity|by vm_compute].
Defined.

End tablemap.

(** ** The order of the relationships *)

Section order.

Global Instance Relationship_eq_dec : EqDecision Relationship.t.
Proof. solve_decision. Defined.

Lemma assignType_commute (ti fi tj fj : nat) (x y : string)
    (ts : list Table.t) :
  (ti, fi) ≠ (tj, fj) →
  assignType ti fi x (assignType tj fj y ts)
  = assignType tj fj y (assignType ti fi x ts).
Proof.
  intros Hne. unfold assignType.
  destruct (decide (ti = tj)) as [->|Hti]; [|by apply list_alter_alter_ne].
  rewrite !list_alter_alter_eq. apply list_alter_ext; [|done].
  intros t _. unfold compose, setFields. cbn. f_equal.
  apply list_alter_alter_ne. congruence.
Qed.

Lemma alignRelationship_write (m : gmap string nat) (ts : list Table.t)
    (r : Relationship.t) :
  alignRelationship m ts r = applyWrite (stepWrite m ts r) ts.
Proof.
  rewrite alignRelationship_endpoints. unfold stepWrite, applyWrite.
  by repeat case_match; simplify_eq.
Qed.

Lemma stepWrite_ref (m : gmap string nat) (ts : list Table.t)
    (r : Relationship.t) (ref : nat * nat) (ty : string) :
  stepWrite m ts r = Some (ref, ty) → ref ∈ endpointList m ts r.
Proof.
  unfold stepWrite, endpointList.
  repeat case_match; intros; simplify_eq.
  - apply list_elem_of_further, list_elem_of_here.
  - apply list_elem_of_here.
Qed.

(** The step of a relationship reads the types of its two ends, nothing
    else. *)
Lemma stepWrite_frame (m : gmap string nat) (ts ts1 : list Table.t)
    (r : Relationship.t) :
  eraseTableTypes <$> ts1 = eraseTableTypes <$> ts →
  (∀ ref, ref ∈ endpointList m ts r → typeAt ts1 ref = typeAt ts ref) →
  stepWrite m ts1 r = stepWrite m ts r.
Proof.
  intros Hshape Hsame. unfold stepWrite, endpointList in *.
  rewrite (endpoints_shape m ts ts1 r Hshape).
  destruct (endpoints m ts r) as [[s t]|]; [|done].
  rewrite (Hsame s), (Hsame t); [done| |].
  - apply list_elem_of_further, list_elem_of_here.
  - apply list_elem_of_here.
Qed.

Lemma typeAt_applyWrite (w : option ((nat * nat) * string))
    (ts : list Table.t) (ref : nat * nat) :
  (∀ ref' ty, w = Some (ref', ty) → ref ≠ ref') →
  typeAt (applyWrite w ts) ref = typeAt ts ref.
Proof.
  intros Hne. destruct w as [[[ti fi] ty]|]; [|done]. cbn.
  apply typeAt_assignType_ne. by eapply Hne.
Qed.

Lemma applyWrite_shape (w : option ((nat * nat) * string))
    (ts : list Table.t) :
  eraseTableTypes <$> applyWrite w ts = eraseTableTypes <$> ts.
Proof. destruct w as [[[ti fi] ty]|]; [|done]. apply assignType_shape. Qed.

(** The steps of two relationships that share no field commute. *)
Lemma alignRelationship_commute (m : gmap string nat) (ts : list Table.t)
    (r r' : Relationship.t) :
  (∀ ref, ref ∈ endpointList m ts r → ref ∉ endpointList m ts r') →
  alignRelationship m (alignRelationship m ts r') r
  = alignRelationship m (alignRelationship m ts r) r'.
Proof.
  intros Hdisjoint.
  rewrite (alignRelationship_write m ts r'), (alignRelationship_write m ts r).
  rewrite !alignRelationship_write.
  rewrite (stepWrite_frame m ts (applyWrite (stepWrite m ts r') ts) r),
          (stepWrite_frame m ts (applyWrite (stepWrite m ts r) ts) r');
    try apply applyWrite_shape.
  - destruct (stepWrite m ts r) as [[[ti fi] x]|] eqn:Hw; [|done].
    destruct (stepWrite m ts r') as [[[tj fj] y]|] eqn:Hw'; [|done].
    cbn. apply assignType_commute. intros Heq.
    apply stepWrite_ref in Hw, Hw'. rewrite Heq in Hw. by eapply Hdisjoint.
  - intros ref Href. apply typeAt_applyWrite.
    intros ref' ty Hw%stepWrite_ref ->. by eapply Hdisjoint.
  - intros ref Href. apply typeAt_applyWrite.
    intros ref' ty Hw%stepWrite_ref ->. by eapply Hdisjoint.
Qed.

Lemma pairwiseDisjoint_elem (m : gmap string nat) (ts : list Table.t)
    (rs : list Relationship.t) :
  pairwiseDisjoint (endpointList m ts <$> rs) = true →
  ∀ r r', r ∈ rs → r' ∈ rs → r ≠ r' →
          ∀ ref, ref ∈ endpointList m ts r → ref ∉ endpointList m ts r'.
Proof.
  induction rs as [|r0 rs IH]; [by intros _ r r' ?%elem_of_nil|].
  rewrite fmap_cons. intros [Hr0 Hrs]%pairwiseDisjoint_cons.
  rewrite Forall_fmap, Forall_forall in Hr0. cbn in Hr0.
  intros r r' [->|Hr]%elem_of_cons [->|Hr']%elem_of_cons Hne; [done|..].
  - by apply Hr0.
  - intros ref Href Href'. by eapply (Hr0 r Hr).
  - by apply IH.
Qed.

Lemma foldl_alignRelationship_Permutation (m : gmap string nat)
    (ts0 : list Table.t) (rs rs' : list Relationship.t) :
  rs ≡ₚ rs' →
  (∀ r r', r ∈ rs → r' ∈ rs → r ≠ r' →
           ∀ ref, ref ∈ endpointList m ts0 r → ref ∉ endpointList m ts0 r') →
  ∀ ts, eraseTableTypes <$> ts = eraseTableTypes <$> ts0 →
        foldl (alignRelationship m) ts rs = foldl (alignRelationship m) ts rs'.
Proof.
  induction 1 as [|x l l' Hperm IH|x y l|l1 l2 l3 Hperm12 IH12 Hperm23 IH23];
    intros Hdisjoint ts Hshape; cbn [foldl].
  - done.
  - apply IH.
    + intros r r' Hr Hr'. by apply Hdisjoint; apply list_elem_of_further.
    + by rewrite alignRelationship_shape.
  - f_equal. destruct (decide (x = y)) as [->|Hne]; [done|].
    apply alignRelationship_commute. intros ref.
    rewrite !(endpointList_shape m ts0 ts _ Hshape).
    apply Hdisjoint; [|apply list_elem_of_here|done].
    apply list_elem_of_further, list_elem_of_here.
  - rewrite IH12, IH23; [done| |done..].
    intros r r' Hr Hr'. apply Hdisjoint; by rewrite Hperm12.
Qed.

(** X13.  When no field is an end of two relationships, the order of the
    relationships does not matter: the alignment of the Diagram with its
    relationships in any other order gives the same tables. *)
Theorem alignForeignKeyDataTypes_any_order (d : Diagram.t)
    (rs rs' : list Relationship.t) :
  noSharedEndpoint d = true →
  Diagram.relationships d = Some rs → rs' ≡ₚ rs →
  Diagram.tables
    (alignForeignKeyDataTypes (Diagram.mk (Diagram.tables d) (Some rs')))
  = Diagram.tables (alignForeignKeyDataTypes d).
Proof.
  intros Hdisjoint Hrs Hperm. destruct d as [[ts|] rels]; [|done].
  cbn in Hrs. subst rels.
  unfold noSharedEndpoint, alignForeignKeyDataTypes in *.
  cbn [Diagram.tables Diagram.relationships] in *.
  rewrite (Permutation_length Hperm).
  destruct ((length ts =? 0) || (length rs =? 0)); [done|].
  cbn [Diagram.tables]. f_equal.
  symmetry. apply (foldl_alignRelationship_Permutation _ ts); [done| |done].
  by apply pairwiseDisjoint_elem.
Qed.

(** The two relationships of the sample, swapped. *)
Lemma alignForeignKeyDataTypes_any_order_witness :
  Diagram.tables
    (alignForeignKeyDataTypes
       (Diagram.mk (Some [pairsTable])
          (Some [ Relationship.mk "r2" "t" "c" "t" "d";
                  Relationship.mk "r1" "t" "a" "t" "b" ])))
  = Diagram.tables (alignForeignKeyDataTypes pairsDiagram).
Proof.
  apply (alignForeignKeyDataTypes_any_order pairsDiagram
           [ Relationship.mk "r1" "t" "a" "t" "b";
             Relationship.mk "r2" "t" "c" "t" "d" ]).
  - by vm_compute.
  - reflexivity.
  - apply perm_swap.
Defined.

End order.

(** ** The prompt *)

Section prompt.

Lemma length_append (s1 s2 : string) :
  String.length (s1 +:+ s2) = String.length s1 + String.length s2.
Proof.
  induction s1 as [|c s1 IH]; [done|].
  rewrite append_cons. cbn [String.length]. by rewrite IH.
Qed.

Lemma append_inj_r (s1 s2 t : string) : s1 +:+ t = s2 +:+ t → s1 = s2.
Proof.
  revert s2. induction s1 as [|c1 s1 IH]; intros [|c2 s2] Heq.
  - done.
  - apply (f_equal String.length) in Heq.
    rewrite append_cons in Heq. cbn [String.length String.append] in Heq.
    rewrite !length_append in Heq. cbn [String.length] in Heq. lia.
  - apply (f_equal String.length) in Heq.
    rewrite append_cons in Heq. cbn [String.length String.append] in Heq.
    rewrite !length_append in Heq. cbn [String.length] in Heq. lia.
  - rewrite !append_cons in Heq. injection Heq as -> Heq.
    by rewrite (IH _ Heq).
Qed.

(** X14.  The prompt embeds the script verbatim, once.  Whatever the
    database type, the prompt is a text that does not depend on the script,
    ending with the heading [Here is the SQL script ...], an empty line and
    eight spaces; then the script, unchanged; then an empty line, eight
    spaces, the additional instructions, a line feed and four spaces.  So
    two prompts for one database type are equal exactly when their scripts
    are. *)
Theorem generateSQLPrompt_script_verbatim (databaseType : string) :
  (∃ before,
     ∀ sqlScript,
       generateSQLPrompt databaseType sqlScript =
         before
         +:+ "Here is the SQL script that needs to be optimized or generated according to the instructions above:"
         +:+ LF +:+ LF +:+ "        "
         +:+ sqlScript
         +:+ LF +:+ LF +:+ "        " +:+ additionalInstructions
         +:+ LF +:+ "    ")
  ∧ ∀ s1 s2,
      generateSQLPrompt databaseType s1 = generateSQLPrompt databaseType s2
      ↔ s1 = s2.
Proof.
  split.
  - exists (basePrompt databaseType +:+ LF +:+ dialectInstructions databaseType
            +:+ "

        - **Validation**: After generating the script, validate it against the respective SQL dialect by attempting to execute it in a corresponding database environment.
        - **Syntax Checking**: Use SQL linting tools specific to each dialect to ensure the script is free from syntax errors.
        - **Manual Review**: Include a step where a knowledgeable developer reviews the generated script to ensure it meets the required specifications and adheres to best practices.

        ").
    intros sqlScript. unfold generateSQLPrompt. by rewrite !append_assoc.
  - intros s1 s2. split; [|by intros ->]. unfold generateSQLPrompt.
    intros Heq. do 4 apply (inj (String.append _)) in Heq.
    by apply append_inj_r in Heq.
Qed.

Lemma dialectTexts_Some (databaseType text : string) :
  dialectTexts !! databaseType = Some text →
  databaseType ∈ ["POSTGRESQL"; "MYSQL"; "SQL_SERVER"; "MARIADB"; "SQLITE"]
  ∧ text ≠ "".
Proof.
  unfold dialectTexts. intros Hin%elem_of_list_to_map_2.
  repeat (apply elem_of_cons in Hin as [[= -> ->]|Hin];
          [split; [by repeat first [apply list_elem_of_here
                                   |apply list_elem_of_further]
                  |discriminate]|]).
  by apply elem_of_nil in Hin.
Qed.

Lemma dialectTexts_None (databaseType : string) :
  dialectTexts !! databaseType = None →
  databaseType ∉ ["POSTGRESQL"; "MYSQL"; "SQL_SERVER"; "MARIADB"; "SQLITE"].
Proof. unfold dialectTexts. by intros Hnone%not_elem_of_list_to_map_2. Qed.

(** X15.  The dialect instructions of the prompt are empty exactly for a
    database type that is none of the five upper-case keys [POSTGRESQL],
    [MYSQL], [SQL_SERVER], [MARIADB] and [SQLITE] and no member that an
    object literal inherits: the lookup is by exact match, so a name in
    lower case selects nothing. *)
Theorem dialectInstructions_empty_iff (databaseType : string) :
  dialectInstructions databaseType = "" ↔
    (databaseType
       ∉ ["POSTGRESQL"; "MYSQL"; "SQL_SERVER"; "MARIADB"; "SQLITE"])
    ∧ JS.objectPrototype databaseType = None.
Proof.
  unfold dialectInstructions.
  destruct (dialectTexts !! databaseType) as [text|] eqn:Htext.
  - apply dialectTexts_Some in Htext as [Hkey Hne]. split; [done|].
    by intros [? _].
  - apply dialectTexts_None in Htext.
    destruct (JS.objectPrototype databaseType) as [member|] eqn:Hmember;
      [|done].
    split; [|by intros [_ ?]]. intros Hempty. exfalso.
    unfold JS.objectPrototype in Hmember.
    repeat case_decide; simplify_eq; discriminate.
Qed.

End prompt.

(** ** The export as a whole *)

Section export.

Lemma exportBaseSQL_fst (d : Diagram.t) :
  (exportBaseSQL d).1 = alignForeignKeyDataTypes d.
Proof.
  unfold exportBaseSQL.
  destruct (Diagram.tables d) as [[|t ts]|] eqn:Hts; cbn;
    by rewrite ?alignForeignKeyDataTypes_no_tables by auto.
Qed.

Lemma alignForeignKeyDataTypes_aligned (d : Diagram.t) :
  noSharedEndpoint d = true →
  alignForeignKeyDataTypes (alignForeignKeyDataTypes d)
  = alignForeignKeyDataTypes d.
Proof.
  intros Hdisjoint.
  destruct (alignForeignKeyDataTypes_run d)
    as [Hfixed|(ts & rs & Hts & Hrs & ->)]; [by rewrite !Hfixed|].
  unfold noSharedEndpoint in Hdisjoint. rewrite Hts, Hrs in Hdisjoint.
  unfold alignForeignKeyDataTypes. cbn [Diagram.tables Diagram.relationships].
  case_match; [done|].
  rewrite (setTables_shape ts) by apply foldl_alignRelationship_shape.
  by rewrite foldl_balanced_id by by apply foldl_all_balanced.
Qed.

Lemma pair_eq {A B : Type} (p q : A * B) : p.1 = q.1 → p.2 = q.2 → p = q.
Proof. destruct p, q. cbn. by intros -> ->. Qed.

(** X16.  When no field is an end of two relationships, a second export
    repeats the first: [exportBaseSQL] on the Diagram that a first call has
    left gives the same script and leaves the Diagram as it is. *)
Theorem exportBaseSQL_repeatable (d : Diagram.t) :
  noSharedEndpoint d = true →
  exportBaseSQL (exportBaseSQL d).1 = exportBaseSQL d.
Proof.
  intros Hdisjoint. rewrite (exportBaseSQL_fst d). apply pair_eq.
  - by rewrite !exportBaseSQL_fst, alignForeignKeyDataTypes_aligned.
  - rewrite !exportBaseSQL_script. unfold nonViewTables, relationshipsOf.
    by rewrite alignForeignKeyDataTypes_aligned,
      alignForeignKeyDataTypes_relationships.
Qed.

(** The sample with two separate relationships: its first export changes
    the Diagram, its second export changes nothing more. *)
Lemma exportBaseSQL_repeatable_witness :
  (exportBaseSQL pairsDiagram).1 ≠ pairsDiagram
  ∧ exportBaseSQL (exportBaseSQL pairsDiagram).1 = exportBaseSQL pairsDiagram.
Proof.
  split; [by vm_compute|].
  apply exportBaseSQL_repeatable. by vm_compute.
Defined.

(** The field that the emitter finds for one end of a relationship is the
    field, as aligned, behind the reference that the alignment resolves. *)
Lemma resolveEndpoint_typeIn (d : Diagram.t) (ts : list Table.t)
    (tableId fieldId : string) (t' : Table.t) (f' : Field.t) :
  NoDup (Table.id <$> ts) → Diagram.tables d = Some ts →
  resolveEndpoint (nonViewTables d) tableId fieldId = Some (t', f') →
  ∃ i k t,
    setTables 0 ts ∅ !! tableId = Some i ∧ ts !! i = Some t
    ∧ fst <$> findField fieldId (Table.fields t) = Some k
    ∧ typeIn (alignForeignKeyDataTypes d) (i, k) = Some (Field.type f').
Proof.
  intros Hunique Hts Hresolve. unfold resolveEndpoint in Hresolve.
  destruct (findTable tableId (nonViewTables d)) as [t1|] eqn:Ht1; [|done].
  cbn in Hresolve.
  destruct (findField fieldId (Table.fields t1)) as [[k f1]|] eqn:Hf1;
    [|done].
  cbn in Hresolve. injection Hresolve as -> ->.
  destruct (findTable_tableMap d ts tableId t' Hunique Hts Ht1)
    as (i & Hi & Ht').
  destruct (alignForeignKeyDataTypes_tables d ts Hts) as (ts' & Hts' & Hshape).
  rewrite Hts' in Ht'. cbn in Ht'.
  destruct (shape_lookup _ _ _ _ Hshape Ht') as (t & Ht & Htt').
  exists i, k, t. split_and!; [done..| |].
  - rewrite <- (findField_shape fieldId (Table.fields t) (Table.fields t'))
      by by apply shape_fields.
    by rewrite Hf1.
  - unfold typeIn, typeAt. rewrite Hts'. cbn. rewrite Ht'. cbn.
    apply list_find_Some in Hf1 as (Hk & _ & _). by rewrite Hk.
Qed.

(** X17.  What the alignment is for: with unique table ids and no field at
    the end of two relationships, the two columns that an emitted
    [ALTER TABLE] line names have types of which neither is the larger, and
    of the same weight when neither is an inherited member name. *)
Theorem emitted_foreign_key_balanced (d : Diagram.t) (ts : list Table.t)
    (rs : list Relationship.t) (r : Relationship.t)
    (sourceTable targetTable : Table.t) (sourceField targetField : Field.t) :
  NoDup (Table.id <$> ts) → noSharedEndpoint d = true →
  Diagram.tables d = Some ts → Diagram.relationships d = Some rs → r ∈ rs →
  resolveEndpoint (nonViewTables d) (Relationship.sourceTableId r)
                  (Relationship.sourceFieldId r)
  = Some (sourceTable, sourceField) →
  resolveEndpoint (nonViewTables d) (Relationship.targetTableId r)
                  (Relationship.targetFieldId r)
  = Some (targetTable, targetField) →
  JS.gt (getMySQLDataTypeSize (Field.type sourceField))
        (getMySQLDataTypeSize (Field.type targetField)) = false
  ∧ JS.gt (getMySQLDataTypeSize (Field.type targetField))
          (getMySQLDataTypeSize (Field.type sourceField)) = false
  ∧ (JS.objectPrototype (JS.toLowerCase (Field.type sourceField)) = None →
     JS.objectPrototype (JS.toLowerCase (Field.type targetField)) = None →
     tableWeight (Field.type sourceField)
     = tableWeight (Field.type targetField)).
Proof.
  intros Hunique Hdisjoint Hts Hrs Hr Hsource Htarget.
  destruct (resolveEndpoint_typeIn d ts _ _ _ _ Hunique Hts Hsource)
    as (si & sk & st & Hsi & Hst & Hsk & Hstype).
  destruct (resolveEndpoint_typeIn d ts _ _ _ _ Hunique Hts Htarget)
    as (ti & tk & tt & Hti & Htt & Htk & Httype).
  assert (endpoints (setTables 0 ts ∅) ts r = Some ((si, sk), (ti, tk)))
    as Hends.
  { unfold endpoints. rewrite Hsi, Hti. cbn. rewrite Hst, Htt. cbn.
    destruct (findField _ (Table.fields st)) as [[? ?]|]; [|done].
    destruct (findField _ (Table.fields tt)) as [[? ?]|]; [|done].
    cbn in *. by simplify_eq. }
  destruct (alignForeignKeyDataTypes_settles_sizes d ts rs r _ _ _ _
              Hdisjoint Hts Hrs Hr Hends Hstype Httype) as [Hab Hba].
  split_and!; [done..|]. intros Hna Hnb.
  rewrite !getMySQLDataTypeSize_tableWeight in Hab, Hba by done.
  cbn [JS.gt] in Hab, Hba. apply N.ltb_ge in Hab, Hba. lia.
Qed.

(** The foreign key of the sample: [users.id] and [orders.user_id] are both
    [integer] in the script. *)
Lemma emitted_foreign_key_balanced_witness :
  NoDup (Table.id <$> [usersTable; ordersTable])
  ∧ noSharedEndpoint shopDiagram = true
  ∧ tableWeight "integer" = tableWeight "integer".
Proof.
  assert (NoDup (Table.id <$> [usersTable; ordersTable])) as Hunique.
  { apply (bool_decide_unpack _). by vm_compute. }
  split; [exact Hunique|]. split; [by vm_compute|].
  refine (proj2 (proj2 (emitted_foreign_key_balanced shopDiagram
            [usersTable; ordersTable] [fkOrdersUser] fkOrdersUser
            usersTable
            (setFields
               [ Field.mk "o_id" "id" "integer" None None None true None true;
                 Field.mk "o_user" "user_id" "integer" None None None false
                          None false ]
               ordersTable)
            (Field.mk "u_id" "id" "integer" None None None true None true)
            (Field.mk "o_user" "user_id" "integer" None None None false None
                      false)
            Hunique _ _ _ _ _ _)) _ _); try by vm_compute.
  apply list_elem_of_here.
Defined.

End export.

(** ** The lines of the script *)

Section lines.

Lemma singleLine_append (s1 s2 : string) :
  singleLine (s1 +:+ s2) = singleLine s1 && singleLine s2.
Proof.
  induction s1 as [|c s1 IH]; [done|].
  rewrite append_cons. cbn [singleLine]. by rewrite IH, andb_assoc.
Qed.

Lemma singleLine_pretty_N_go (x : N) (s : string) :
  singleLine s = true → singleLine (pretty_N_go x s) = true.
Proof.
  revert s. induction (N.lt_wf_0 x) as [x _ IH]. intros s Hs.
  destruct (decide (x = 0)%N) as [->|Hx]; [by rewrite pretty_N_go_0|].
  rewrite pretty_N_go_step by lia. apply IH.
  - apply N.div_lt; lia.
  - cbn [singleLine]. rewrite Hs, andb_true_r.
    unfold pretty_N_char. by repeat case_match.
Qed.

(** A number prints without a line feed: as digits here (in JavaScript as
    digits, with a point or an exponent beyond the exact range), or as
    [undefined]. *)
Lemma singleLine_showNumber (n : option N) :
  singleLine (JS.showNumber n) = true.
Proof.
  destruct n as [k|]; [|done]. unfold JS.showNumber, pretty, pretty_N.
  case_decide; [done|]. by apply singleLine_pretty_N_go.
Qed.

Lemma singleLine_join (sep : string) (l : list string) :
  singleLine sep = true → Forall (λ x, singleLine x = true) l →
  singleLine (JS.join sep l) = true.
Proof.
  intros Hsep. induction 1 as [|x l Hx Hl IH]; [done|].
  destruct l as [|y l]; [done|].
  change (JS.join sep (x :: y :: l)) with (x +:+ sep +:+ JS.join sep (y :: l)).
  by rewrite !singleLine_append, Hx, Hsep, IH.
Qed.

(** The first line of a text. *)
Lemma lines_line (line s : string) :
  singleLine line = true → lines (line +:+ LF +:+ s) = line :: lines s.
Proof.
  induction line as [|c line IH]; intros Hline; [done|].
  cbn [singleLine] in Hline. apply andb_true_iff in Hline as [Hc Hline].
  rewrite append_cons. cbn [lines].
  destruct (isLF c); [done|]. by rewrite IH.
Qed.

Lemma unlines_app (l1 l2 : list string) :
  unlines (l1 ++ l2) = unlines l1 +:+ unlines l2.
Proof. unfold unlines. by rewrite fmap_app, flat_app. Qed.

Lemma lines_unlines (ls : list string) :
  Forall (λ line, singleLine line = true) ls →
  lines (unlines ls) = ls ++ [""].
Proof.
  induction 1 as [|line ls Hline _ IH]; [done|].
  unfold unlines. rewrite fmap_cons, flat_cons, append_assoc.
  rewrite lines_line by done. cbn [app]. f_equal. exact IH.
Qed.

(** Texts made of whole lines. *)
Lemma linesOf_nil (ok : string → bool) : linesOf ok "".
Proof. exists []. by split. Qed.

Lemma linesOf_line (ok : string → bool) (line : string) :
  singleLine line = true → ok line = true → linesOf ok (line +:+ LF).
Proof.
  intros Hline Hok. exists [line]. split.
  - unfold unlines. cbn [fmap list_fmap flat foldr].
    by rewrite append_nil_r.
  - by repeat constructor.
Qed.

Lemma linesOf_append (ok : string → bool) (s1 s2 : string) :
  linesOf ok s1 → linesOf ok s2 → linesOf ok (s1 +:+ s2).
Proof.
  intros (l1 & -> & H1) (l2 & -> & H2). exists (l1 ++ l2). split.
  - by rewrite unlines_app.
  - by apply Forall_app.
Qed.

Lemma linesOf_flat (ok : string → bool) (pieces : list string) :
  Forall (linesOf ok) pieces → linesOf ok (flat pieces).
Proof.
  induction 1 as [|piece pieces Hpiece _ IH]; [apply linesOf_nil|].
  rewrite flat_cons. by apply linesOf_append.
Qed.

(** Two texts of whole lines, the first without a line of the one kind, the
    second without a line of the other kind: in their concatenation every
    line of the first kind stands after every line of the second kind. *)
Lemma lines_ordered (first second : string → bool) (s1 s2 : string)
    (i j : nat) (a c : string) :
  linesOf (λ line, negb (first line)) s1 →
  linesOf (λ line, negb (second line)) s2 →
  second "" = false →
  lines (s1 +:+ s2) !! i = Some a → first a = true →
  lines (s1 +:+ s2) !! j = Some c → second c = true →
  j < i.
Proof.
  intros (l1 & -> & H1) (l2 & -> & H2) Hempty Hi Ha Hj Hc.
  rewrite <- unlines_app in Hi, Hj.
  rewrite lines_unlines in Hi, Hj
    by (apply Forall_app; split; eapply Forall_impl; eauto; by intros ? [? _]).
  rewrite <- app_assoc in Hi, Hj.
  assert (length l1 ≤ i).
  { destruct (decide (i < length l1)) as [Hlt|]; [exfalso|lia].
    rewrite lookup_app_l in Hi by done.
    rewrite Forall_forall in H1.
    destruct (H1 a) as [_ Hnot]; [by eapply list_elem_of_lookup_2|].
    by rewrite Ha in Hnot. }
  assert (j < length l1); [|lia].
  destruct (decide (j < length l1)) as [|Hge]; [done|exfalso].
  rewrite lookup_app_r in Hj by lia.
  apply list_elem_of_lookup_2, elem_of_app in Hj as [Hj|Hj].
  - rewrite Forall_forall in H2. destruct (H2 c Hj) as [_ Hnot].
    by rewrite Hc in Hnot.
  - apply list_elem_of_singleton in Hj as ->. congruence.
Qed.

(** *** The lines of a table block *)

Lemma singleLine_columnLine (f : Field.t) :
  singleLineField f = true → singleLine (columnLine f) = true.
Proof.
  unfold singleLineField.
  intros [[Hname Htype]%andb_true_iff Hdefault]%andb_true_iff.
  unfold columnLine, columnConstraints.
  repeat case_match;
    by rewrite !singleLine_append, ?singleLine_showNumber, ?Hname, ?Htype,
      ?Hdefault.
Qed.

Lemma isAlterTable_columnLine (f : Field.t) :
  isAlterTable (columnLine f) = false
  ∧ ∀ rest, isAlterTable (columnLine f +:+ rest) = false.
Proof. done. Qed.

(** The columns of a table and the line feed after them. *)
Lemma linesOf_columns (fields : list Field.t) :
  Forall (λ f, singleLineField f = true) fields →
  linesOf (λ line, negb (isAlterTable line))
          (JS.join ("," +:+ LF) (columnLine <$> fields) +:+ LF).
Proof.
  induction 1 as [|f fields Hf Hfields IH].
  - by apply (linesOf_line _ "").
  - destruct fields as [|g fields].
    + change (JS.join ("," +:+ LF) (columnLine <$> [f])) with (columnLine f).
      apply linesOf_line; [by apply singleLine_columnLine|].
      cbn beta. by rewrite (proj1 (isAlterTable_columnLine f)).
    + change (JS.join ("," +:+ LF) (columnLine <$> f :: g :: fields))
        with (columnLine f +:+ ("," +:+ LF)
              +:+ JS.join ("," +:+ LF) (columnLine <$> g :: fields)).
      replace ((columnLine f +:+ ("," +:+ LF)
                +:+ JS.join ("," +:+ LF) (columnLine <$> g :: fields)) +:+ LF)
        with (((columnLine f +:+ ",") +:+ LF)
              +:+ (JS.join ("," +:+ LF) (columnLine <$> g :: fields) +:+ LF))
        by by rewrite !append_assoc.
      apply linesOf_append; [|exact IH].
      apply linesOf_line;
        [|cbn beta; by rewrite (proj2 (isAlterTable_columnLine f))].
      by rewrite singleLine_append, singleLine_columnLine.
Qed.

Lemma singleLine_fieldNames (t : Table.t) (ix : Index.t) :
  Forall (λ f, singleLineField f = true) (Table.fields t) →
  Forall (λ name, singleLine name = true)
    (filterBoolean
       ((λ fieldId,
           Field.name <$> (snd <$> findField fieldId (Table.fields t)))
          <$> Index.fieldIds ix)).
Proof.
  intros Hfields. apply Forall_forall. intros name Hname.
  unfold filterBoolean in Hname.
  apply list_elem_of_omap in Hname as (o & Ho & Hname).
  apply list_elem_of_fmap in Ho as (fieldId & -> & _).
  destruct (findField fieldId (Table.fields t)) as [[k f]|] eqn:Hfind;
    [|done].
  cbn in Hname. case_match; [|done]. injection Hname as <-.
  apply list_find_Some in Hfind as (Hk & _ & _).
  rewrite Forall_forall in Hfields.
  specialize (Hfields f (list_elem_of_lookup_2 _ _ _ Hk)).
  unfold singleLineField in Hfields.
  by apply andb_true_iff in Hfields as [[? _]%andb_true_iff _].
Qed.

Lemma linesOf_exportIndex (t : Table.t) (ix : Index.t) :
  singleLine (Table.name t) = true →
  Forall (λ f, singleLineField f = true) (Table.fields t) →
  singleLine (Index.name ix) = true →
  linesOf (λ line, negb (isAlterTable line)) (exportIndex t "" ix).
Proof.
  intros Hname Hfields Hix. unfold exportIndex. cbn zeta.
  case_match; [|apply linesOf_nil].
  pose proof (singleLine_join ", " _ eq_refl
                (singleLine_fieldNames t ix Hfields)) as Hnames.
  match goal with
  | |- linesOf _ (_ +:+ ?a +:+ ?b +:+ ?c +:+ ?d +:+ ?e +:+ ?f +:+ ?g +:+ ?h
                    +:+ ?k +:+ LF) =>
      apply (linesOf_append _ ""); [apply linesOf_nil|];
      replace (a +:+ b +:+ c +:+ d +:+ e +:+ f +:+ g +:+ h +:+ k +:+ LF)
        with ((a +:+ b +:+ c +:+ d +:+ e +:+ f +:+ g +:+ h +:+ k) +:+ LF)
        by by rewrite !append_assoc
  end.
  apply linesOf_line; [|by destruct (Index.unique ix)].
  rewrite !singleLine_append, Hname, Hix, Hnames.
  by destruct (Index.unique ix).
Qed.

Lemma linesOf_exportTable (t : Table.t) :
  singleLineTable t = true →
  linesOf (λ line, negb (isAlterTable line)) (exportTable "" t).
Proof.
  unfold singleLineTable.
  intros [[Hname Hfields%forallb_Forall]%andb_true_iff
            Hindexes%forallb_Forall]%andb_true_iff.
  rewrite exportTable_block. unfold forEach.
  rewrite forEachFrom_columns by done.
  replace ("" +:+ ("CREATE TABLE " +:+ Table.name t +:+ " (" +:+ LF
             +:+ JS.join ("," +:+ LF) (columnLine <$> Table.fields t)
             +:+ LF +:+ ");" +:+ LF +:+ LF)
           +:+ flat (exportIndex t "" <$> Table.indexes t) +:+ LF)
    with ((("CREATE TABLE " +:+ Table.name t +:+ " (") +:+ LF)
          +:+ (JS.join ("," +:+ LF) (columnLine <$> Table.fields t) +:+ LF)
          +:+ (");" +:+ LF) +:+ ("" +:+ LF)
          +:+ flat (exportIndex t "" <$> Table.indexes t) +:+ ("" +:+ LF))
    by (cbn [String.append]; by rewrite !append_assoc).
  apply linesOf_append;
    [|apply linesOf_append;
       [|apply linesOf_append;
          [|apply linesOf_append; [|apply linesOf_append]]]].
  - apply linesOf_line; [|done]. by rewrite !singleLine_append, Hname.
  - by apply linesOf_columns.
  - by apply linesOf_line.
  - by apply linesOf_line.
  - apply linesOf_flat, Forall_fmap. eapply Forall_impl; [exact Hindexes|].
    intros ix Hix. by apply linesOf_exportIndex.
  - by apply linesOf_line.
Qed.

(** *** The lines of the relationships *)

Lemma findTable_elem (tableId : string) (nv : list Table.t) (t : Table.t) :
  findTable tableId nv = Some t → t ∈ nv.
Proof.
  unfold findTable.
  destruct (list_find _ nv) as [[k t']|] eqn:Hfind; [|done].
  intros [= <-]. apply list_find_Some in Hfind as (Hk & _ & _).
  by eapply list_elem_of_lookup_2.
Qed.

Lemma resolveEndpoint_singleLine (nv : list Table.t)
    (tableId fieldId : string) (t : Table.t) (f : Field.t) :
  Forall (λ t, singleLineTable t = true) nv →
  resolveEndpoint nv tableId fieldId = Some (t, f) →
  singleLine (Table.name t) = true ∧ singleLine (Field.name f) = true.
Proof.
  intros Hnv Hresolve. unfold resolveEndpoint in Hresolve.
  destruct (findTable tableId nv) as [t1|] eqn:Ht1; [|done].
  cbn in Hresolve.
  destruct (findField fieldId (Table.fields t1)) as [[k f1]|] eqn:Hf1;
    [|done].
  cbn in Hresolve. injection Hresolve as -> ->.
  apply findTable_elem in Ht1. rewrite Forall_forall in Hnv.
  specialize (Hnv t Ht1). unfold singleLineTable in Hnv.
  apply andb_true_iff in Hnv
    as [[Hname Hfields%forallb_Forall]%andb_true_iff _].
  split; [done|].
  apply list_find_Some in Hf1 as (Hk & _ & _).
  rewrite Forall_forall in Hfields.
  specialize (Hfields f (list_elem_of_lookup_2 _ _ _ Hk)).
  unfold singleLineField in Hfields.
  by apply andb_true_iff in Hfields as [[? _]%andb_true_iff _].
Qed.

Lemma linesOf_exportRelationship (nv : list Table.t) (r : Relationship.t) :
  Forall (λ t, singleLineTable t = true) nv →
  singleLine (Relationship.name r) = true →
  linesOf (λ line, negb (isCreate line)) (exportRelationship nv "" r).
Proof.
  intros Hnv Hname. rewrite exportRelationship_resolved.
  destruct (resolveEndpoint nv (Relationship.sourceTableId r) _)
    as [[st sf]|] eqn:Hsource; [|apply linesOf_nil].
  destruct (resolveEndpoint nv (Relationship.targetTableId r) _)
    as [[tt tf]|] eqn:Htarget; [|apply linesOf_nil].
  destruct (resolveEndpoint_singleLine _ _ _ _ _ Hnv Hsource) as [Hst Hsf].
  destruct (resolveEndpoint_singleLine _ _ _ _ _ Hnv Htarget) as [Htt Htf].
  replace ("ALTER TABLE " +:+ Table.name st +:+ " ADD CONSTRAINT "
             +:+ Relationship.name r +:+ " FOREIGN KEY (" +:+ Field.name sf
             +:+ ") REFERENCES " +:+ Table.name tt +:+ " (" +:+ Field.name tf
             +:+ ");" +:+ LF)
    with (("ALTER TABLE " +:+ Table.name st +:+ " ADD CONSTRAINT "
             +:+ Relationship.name r +:+ " FOREIGN KEY (" +:+ Field.name sf
             +:+ ") REFERENCES " +:+ Table.name tt +:+ " (" +:+ Field.name tf
             +:+ ");") +:+ LF)
    by by rewrite !append_assoc.
  apply linesOf_line; [|done].
  by rewrite !singleLine_append, Hst, Hsf, Htt, Htf, Hname.
Qed.

(** *** The tables after the alignment *)

Lemma assignType_singleLine (ti fi : nat) (ty : string) (ts : list Table.t) :
  singleLine ty = true →
  Forall (λ t, singleLineTable t = true) ts →
  Forall (λ t, singleLineTable t = true) (assignType ti fi ty ts).
Proof.
  intros Hty Hts. unfold assignType. apply Forall_alter; [done|].
  intros t _. unfold singleLineTable, setFields.
  cbn [Table.name Table.fields Table.indexes].
  intros [[Hname Hfields%forallb_Forall]%andb_true_iff Hindexes]%andb_true_iff.
  rewrite Hname, Hindexes, andb_true_r. cbn [andb].
  apply forallb_Forall, Forall_alter; [done|].
  intros f _. unfold singleLineField, setType.
  cbn [Field.name Field.type Field.default].
  intros [[-> _]%andb_true_iff ->]%andb_true_iff. by rewrite Hty.
Qed.

Lemma findField_singleLine (ts : list Table.t) (i k : nat) (t : Table.t)
    (f : Field.t) (fieldId : string) :
  Forall (λ t, singleLineTable t = true) ts → ts !! i = Some t →
  findField fieldId (Table.fields t) = Some (k, f) →
  singleLine (Field.type f) = true.
Proof.
  intros Hts Ht Hf. rewrite Forall_forall in Hts.
  specialize (Hts t (list_elem_of_lookup_2 _ _ _ Ht)).
  unfold singleLineTable in Hts.
  apply andb_true_iff in Hts as [[_ Hfields%forallb_Forall]%andb_true_iff _].
  apply list_find_Some in Hf as (Hk & _ & _).
  rewrite Forall_forall in Hfields.
  specialize (Hfields f (list_elem_of_lookup_2 _ _ _ Hk)).
  unfold singleLineField in Hfields.
  by apply andb_true_iff in Hfields as [[_ ?]%andb_true_iff _].
Qed.

Lemma alignRelationship_singleLine (m : gmap string nat) (ts : list Table.t)
    (r : Relationship.t) :
  Forall (λ t, singleLineTable t = true) ts →
  Forall (λ t, singleLineTable t = true) (alignRelationship m ts r).
Proof.
  intros Hts. unfold alignRelationship.
  destruct (m !! Relationship.sourceTableId r) as [si|]; [|done].
  destruct (m !! Relationship.targetTableId r) as [ti|]; [|done].
  destruct (ts !! si) as [st|] eqn:Hst; [|done].
  destruct (ts !! ti) as [tt|] eqn:Htt; [|done].
  destruct (findField _ (Table.fields st)) as [[sfi sf]|] eqn:Hsf; [|done].
  destruct (findField _ (Table.fields tt)) as [[tfi tf]|] eqn:Htf; [|done].
  repeat case_match; [| |done]; apply assignType_singleLine; try done.
  - by eapply (findField_singleLine ts si).
  - by eapply (findField_singleLine ts ti).
Qed.

Lemma nonViewTables_singleLine (d : Diagram.t) :
  singleLineDiagram d = true →
  Forall (λ t, singleLineTable t = true) (nonViewTables d).
Proof.
  unfold singleLineDiagram. intros [Hts%forallb_Forall _]%andb_true_iff.
  unfold nonViewTables.
  assert (Forall (λ t, singleLineTable t = true)
            (default [] (Diagram.tables (alignForeignKeyDataTypes d))))
    as Haligned.
  { destruct (alignForeignKeyDataTypes_run d)
      as [->|(ts & rs & Hd & _ & ->)]; [done|].
    rewrite Hd in Hts. cbn in *.
    induction rs as [|r rs IH] using rev_ind; [done|].
    rewrite foldl_app. cbn [foldl]. by apply alignRelationship_singleLine. }
  destruct (Diagram.tables (alignForeignKeyDataTypes d)) as [ts'|]; [|done].
  apply Forall_forall. intros t [_ Ht]%list_elem_of_filter.
  rewrite Forall_forall in Haligned. by apply Haligned.
Qed.

(** The script without one relationship of the loop. *)
Lemma exportBaseSQL_without (d : Diagram.t) (pre post : list Relationship.t)
    (r : Relationship.t) :
  Diagram.relationships d = Some (pre ++ r :: post) →
  exportRelationship (nonViewTables d) "" r = "" →
  (exportBaseSQL d).2 =
    foldl (exportRelationship (nonViewTables d))
          (foldl exportTable "" (nonViewTables d)) (pre ++ post).
Proof.
  intros Hrs Hr. rewrite exportBaseSQL_script. unfold relationshipsOf.
  rewrite Hrs.
  rewrite (foldl_appends _ _ (exportRelationship_appends (nonViewTables d))).
  rewrite (foldl_appends _ _ exportTable_appends). cbn [String.append].
  by rewrite !fmap_app, fmap_cons, !flat_app, flat_cons, Hr.
Qed.

(** C5.  A relationship with an end that does not resolve against the
    non-view tables (its table is not found there, or its field is not found
    in that table) adds nothing: the script is the text that the loops of
    the export write for the non-view tables and for the other
    relationships.  The export has no failing case, it returns a script for
    every Diagram.  In a Diagram none of whose names, types and default
    values holds a line feed, every [ALTER TABLE] line of the script stands
    after every [CREATE TABLE], [CREATE INDEX] and [CREATE UNIQUE INDEX]
    line. *)
Theorem unresolved_relationship_skipped (d : Diagram.t) :
  (∀ pre r post,
     Diagram.relationships d = Some (pre ++ r :: post) →
     resolveEndpoint (nonViewTables d) (Relationship.sourceTableId r)
                     (Relationship.sourceFieldId r) = None
     ∨ resolveEndpoint (nonViewTables d) (Relationship.targetTableId r)
                       (Relationship.targetFieldId r) = None →
     (exportBaseSQL d).2 =
       foldl (exportRelationship (nonViewTables d))
             (foldl exportTable "" (nonViewTables d)) (pre ++ post))
  ∧ (singleLineDiagram d = true →
     ∀ i j alter create,
       lines (exportBaseSQL d).2 !! i = Some alter →
       isAlterTable alter = true →
       lines (exportBaseSQL d).2 !! j = Some create →
       isCreate create = true →
       j < i).
Proof.
  split.
  - intros pre r post Hrs Hunresolved.
    apply (exportBaseSQL_without d pre post r); [done|].
    rewrite exportRelationship_resolved.
    destruct Hunresolved as [-> | ->]; [done|]. by repeat case_match.
  - intros Hsingle i j alter create. rewrite exportBaseSQL_script.
    pose proof (nonViewTables_singleLine d Hsingle) as Hnv.
    apply (lines_ordered isAlterTable isCreate); [| |done].
    + apply linesOf_flat, Forall_fmap. eapply Forall_impl; [exact Hnv|].
      intros t Ht. by apply linesOf_exportTable.
    + apply linesOf_flat, Forall_fmap.
      unfold singleLineDiagram in Hsingle.
      apply andb_true_iff in Hsingle as [_ Hrs%forallb_Forall].
      eapply Forall_impl; [exact Hrs|].
      intros r Hr. by apply linesOf_exportRelationship.
Qed.

(** C5 fails on the code at a default value of two lines: the second line of
    the default of [a.x] is a line of the script, it begins with
    [ALTER TABLE], and it stands before the [CREATE TABLE] line of [b]. *)
Lemma alter_table_line_inside_block :
  lines (exportBaseSQL multilineDiagram).2 !! 2
  = Some "ALTER TABLE a ADD CHECK (x >= 0)"
  ∧ isAlterTable "ALTER TABLE a ADD CHECK (x >= 0)" = true
  ∧ lines (exportBaseSQL multilineDiagram).2 !! 6 = Some "CREATE TABLE b ("
  ∧ isCreate "CREATE TABLE b (" = true.
Proof. repeat split; by vm_compute. Qed.

(** The sample relationship [fk_missing] names a table that is not there:
    the script is the script of the tables and of [fk_orders_user], whose
    line is the one before last, after the [CREATE] lines. *)
Lemma unresolved_relationship_skipped_witness :
  resolveEndpoint (nonViewTables danglingDiagram)
                  (Relationship.targetTableId fkMissing)
                  (Relationship.targetFieldId fkMissing) = None
  ∧ (exportBaseSQL danglingDiagram).2 =
      foldl (exportRelationship (nonViewTables danglingDiagram))
            (foldl exportTable "" (nonViewTables danglingDiagram))
            ([] ++ [fkOrdersUser])
  ∧ singleLineDiagram danglingDiagram = true
  ∧ lines (exportBaseSQL danglingDiagram).2 !! 5
    = Some "CREATE INDEX idx_users_name ON users (name);"
  ∧ lines (exportBaseSQL danglingDiagram).2 !! 13
    = Some "ALTER TABLE users ADD CONSTRAINT fk_orders_user FOREIGN KEY (id) REFERENCES orders (user_id);"
  ∧ ∀ i j alter create,
      lines (exportBaseSQL danglingDiagram).2 !! i = Some alter →
      isAlterTable alter = true →
      lines (exportBaseSQL danglingDiagram).2 !! j = Some create →
      isCreate create = true →
      j < i.
Proof.
  pose proof (unresolved_relationship_skipped danglingDiagram)
    as [Hskip Horder].
  split_and!.
  - by vm_compute.
  - apply (Hskip [] fkMissing [fkOrdersUser]); [reflexivity|].
    right. by vm_compute.
  - by vm_compute.
  - by vm_compute.
  - by vm_compute.
  - apply Horder. by vm_compute.
Defined.

End lines.

(** ** Relationships of views *)

Section view_relationships.





End view_relationships.
